(** * Response parsers of the RPC client ([src/rpc/parsers.ts])

    A shallow embedding of the response parsers and of the part of the
    JavaScript object model they rely on: objects live in a store and are
    handled through references, property bags are finite maps from names to
    values, and a call is a state-and-exception computation over the store.

    The codec library ([xdr.*.fromXDR], [Contract], [SorobanDataBuilder]) and
    the shape predicate [Api.isSimulationRaw] are not part of the module; the
    parsers are parametrised over them, and the statements hold for every
    codec and, where nothing else is said, for every shape predicate. *)

From stdpp Require Import base option list gmap strings fin_maps.
From Stdlib Require Import ZArith Lia.

Open Scope string_scope.
Open Scope list_scope.

(** ** Values and the store *)

Abbreviation loc := nat.

(** The binary schemas the module decodes with. *)
Inductive xdr_kind :=
  | DiagnosticEvent
  | TransactionResult
  | TransactionMeta
  | TransactionEnvelope
  | ScVal
  | LedgerKey
  | LedgerEntryData
  | LedgerEntry
  | SorobanAuthorizationEntry.

(** A JavaScript value.  [ext] is the type of the objects built by the codec
    library (decoded XDR values, [Contract], [SorobanDataBuilder]); the module
    never mutates them nor compares them by identity, so they are carried as
    immutable values.  Numbers are only copied and compared with zero. *)
Inductive value (ext : Type) :=
  | VUndef
  | VNull
  | VBool (b : bool)
  | VNum (n : Z)
  | VStr (s : string)
  | VExt (e : ext)
  | VRef (l : loc).

Arguments VUndef {ext}.
Arguments VNull {ext}.
Arguments VBool {ext} b.
Arguments VNum {ext} n.
Arguments VStr {ext} s.
Arguments VExt {ext} e.
Arguments VRef {ext} l.

(** A stored object: a plain object with its own properties, or an array. *)
Inductive obj (ext : Type) :=
  | OPlain (props : gmap string (value ext))
  | OArray (elems : list (value ext)).

Arguments OPlain {ext} props.
Arguments OArray {ext} elems.

(** What a call can throw. *)
Inductive exn (ext : Type) :=
  | NativeTypeError
      (* property read on undefined/null, call of something that is no function,
         [in] on a primitive *)
  | InvalidLedgerEntry (rawEntry : value ext)
      (* TypeError(`invalid ledger entry: ${JSON.stringify(rawEntry)}`) *)
  | CodecError (k : option xdr_kind) (arg : value ext)
      (* whatever the codec library throws on [arg]; [None]: a constructor or
         an accessor of the library rather than [fromXDR] *)
  | Unmodelled.
      (* the call left the fragment of JavaScript modelled here *)

Arguments NativeTypeError {ext}.
Arguments InvalidLedgerEntry {ext} rawEntry.
Arguments CodecError {ext} k arg.
Arguments Unmodelled {ext}.

(** The store: location [l] is the [l]-th object ever created. *)
Abbreviation heap ext := (list (obj ext)).

(** What the accessor of an optional field of a decoded record answers: the
    sub-record, or one of the two absent values of JavaScript.  [x !== null]
    tells [null] from the other two, [x?.f()] calls [f] on the sub-record
    only. *)
Inductive optional (A : Type) :=
  | IsNull
  | IsUndefined
  | Present (a : A).

Arguments IsNull {A}.
Arguments IsUndefined {A}.
Arguments Present {A} a.

(** The codec library, as the module uses it.  [None] stands for a throw. *)
Class Codec (ext : Type) := {
  fromXDR : xdr_kind → value ext → option ext;
  newContract : value ext → option ext;
  newSorobanDataBuilder : value ext → option ext;
  scvVoid : ext;
  (* TransactionMeta: [switch()], [v3()] (throws on another arm),
     [sorobanMeta()] (declared [null | SorobanTransactionMeta]; the library
     reads an optional that is not set as [undefined]), [returnValue()] *)
  meta_switch : ext → Z;
  meta_v3 : ext → option ext;
  v3_sorobanMeta : ext → optional ext;
  sorobanMeta_returnValue : ext → ext
}.

(** [Api.isSimulationRaw], the type guard of [./api] that tells a raw
    simulation response from a parsed one by looking at it. *)
Class ShapeGuard (ext : Type) := {
  isSimulationRaw : heap ext → value ext → bool
}.

Section Model.
Context {ext : Type} `{!Codec ext} `{!ShapeGuard ext}.

Abbreviation value := (value ext).
Abbreviation obj := (obj ext).
Abbreviation exn := (exn ext).
Abbreviation props := (gmap string value).

Abbreviation heap := (list obj).

(** ** The computation monad: the store is threaded, also through a throw *)

Definition M (A : Type) : Type := heap → (exn + A) * heap.

Definition ret {A} (a : A) : M A := λ h, (inr a, h).

Definition throw {A} (e : exn) : M A := λ h, (inl e, h).

Definition bind {A B} (m : M A) (f : A → M B) : M B :=
  λ h, match m h with
       | (inl e, h') => (inl e, h')
       | (inr a, h') => f a h'
       end.

#[global] Instance M_ret : MRet M := @ret.
#[global] Instance M_bind : MBind M := λ A B f m, bind m f.

Definition lift_codec {A} (k : option xdr_kind) (arg : value) (r : option A) : M A :=
  match r with
  | Some a => ret a
  | None => throw (CodecError k arg)
  end.

(** ** Primitive operations *)

(** ToBoolean *)
Definition truthy (v : value) : bool :=
  match v with
  | VUndef | VNull => false
  | VBool b => b
  | VNum n => negb (n =? 0)%Z
  | VStr s => negb (String.eqb s "")
  | VExt _ | VRef _ => true
  end.

Definition nullish (v : value) : bool :=
  match v with
  | VUndef | VNull => true
  | _ => false
  end.

(** [v === ''] *)
Definition is_empty_string (v : value) : bool :=
  match v with
  | VStr s => String.eqb s ""
  | _ => false
  end.

(** [typeof v === 'string'] *)
Definition is_string (v : value) : bool :=
  match v with
  | VStr _ => true
  | _ => false
  end.

(** [v > 0]; the numeric value of a string is not modelled. *)
Definition gt_zero (v : value) : M bool :=
  match v with
  | VNum n => ret (0 <? n)%Z
  | VBool b => ret b
  | VUndef | VNull => ret false
  | VStr s => if String.eqb s "" then ret false else throw Unmodelled
  | VExt _ | VRef _ => throw Unmodelled
  end.

(** [{ ... }] and [[ ... ]]: a new object at the next free location *)
Definition alloc (o : obj) : M value :=
  λ h, (inr (VRef (List.length h)), h ++ [o]).

Definition new_object (m : props) : M value := alloc (OPlain m).
Definition new_array (xs : list value) : M value := alloc (OArray xs).

(** [v.k], for the names the module reads: none of them is inherited from
    [Object.prototype], so a plain object answers with its own property or
    [undefined].  Of an array and of a string only [length] is modelled (an
    array also has its indices and inherited members such as [entries]). *)
Definition get (v : value) (k : string) : M value :=
  λ h, match v with
       | VUndef | VNull => (inl NativeTypeError, h)
       | VBool _ | VNum _ => (inr VUndef, h)
       | VStr s =>
           if String.eqb k "length"
           then (inr (VNum (Z.of_nat (String.length s))), h)
           else (inl Unmodelled, h)
       | VExt _ => (inl Unmodelled, h)
       | VRef l =>
           match h !! l with
           | Some (OPlain m) => (inr (default VUndef (m !! k)), h)
           | Some (OArray xs) =>
               if String.eqb k "length"
               then (inr (VNum (Z.of_nat (List.length xs))), h)
               else (inl Unmodelled, h)
           | None => (inl Unmodelled, h)
           end
       end.

(** [v?.k] *)
Definition get_opt (v : value) (k : string) : M value :=
  if nullish v then ret VUndef else get v k.

(** [k in v], for a name that is not inherited; it throws on a primitive. *)
Definition has_property (k : string) (v : value) : M bool :=
  λ h, match v with
       | VRef l =>
           match h !! l with
           | Some (OPlain m) => (inr (bool_decide (is_Some (m !! k))), h)
           | Some (OArray xs) =>
               if String.eqb k "length" then (inr true, h)
               else (inl Unmodelled, h)
           | None => (inl Unmodelled, h)
           end
       | VExt _ => (inl Unmodelled, h)
       | _ => (inl NativeTypeError, h)
       end.

(** [delete v.k] *)
Definition delete_property (v : value) (k : string) : M unit :=
  λ h, match v with
       | VUndef | VNull => (inl NativeTypeError, h)
       | VRef l =>
           match h !! l with
           | Some (OPlain m) => (inr tt, <[l := OPlain (delete k m)]> h)
           | Some (OArray _) => (inl Unmodelled, h)
           | None => (inl Unmodelled, h)
           end
       | VExt _ => (inl Unmodelled, h)
       | _ => (inr tt, h)
       end.

(** [v.k = x] *)
Definition set_property (v : value) (k : string) (x : value) : M unit :=
  λ h, match v with
       | VRef l =>
           match h !! l with
           | Some (OPlain m) => (inr tt, <[l := OPlain (<[k := x]> m)]> h)
           | _ => (inl Unmodelled, h)
           end
       | _ => (inl Unmodelled, h)
       end.

(** The own properties an object spread [...v] copies. *)
Definition own_properties (v : value) : M props :=
  λ h, match v with
       | VRef l =>
           match h !! l with
           | Some (OPlain m) => (inr m, h)
           | _ => (inl Unmodelled, h)
           end
       | VUndef | VNull | VBool _ | VNum _ => (inr ∅, h)
       | VStr s => if String.eqb s "" then (inr ∅, h) else (inl Unmodelled, h)
       | VExt _ => (inl Unmodelled, h)
       end.

Fixpoint mapM {A B} (f : A → M B) (xs : list A) : M (list B) :=
  match xs with
  | [] => ret []
  | x :: xs' => y ← f x; ys ← mapM f xs'; ret (y :: ys)
  end.

(** [v.map(f)] *)
Definition array_map (f : value → M value) (v : value) : M value :=
  λ h, match v with
       | VUndef | VNull => (inl NativeTypeError, h)
       | VRef l =>
           match h !! l with
           | Some (OArray xs) => (ys ← mapM f xs; new_array ys) h
           | Some (OPlain _) => (inl NativeTypeError, h)
           | None => (inl Unmodelled, h)
           end
       | VExt _ => (inl Unmodelled, h)
       | _ => (inl NativeTypeError, h)
       end.

(** [xdr.K.fromXDR(v, 'base64')] *)
Definition decode (k : xdr_kind) (v : value) : M value :=
  e ← lift_codec (Some k) v (fromXDR k v); ret (VExt e).

(** [v[0]] *)
Definition first_element (v : value) : M value :=
  λ h, match v with
       | VUndef | VNull => (inl NativeTypeError, h)
       | VRef l =>
           match h !! l with
           | Some (OArray xs) => (inr (default VUndef (xs !! 0%nat)), h)
           | _ => (inl Unmodelled, h)
           end
       | VExt _ | VStr _ => (inl Unmodelled, h)
       | VBool _ | VNum _ => (inr VUndef, h)
       end.

(** [a ?? b], both already evaluated *)
Definition coalesce (a b : value) : value := if nullish a then b else a.

(** [a ?? []] *)
Definition or_empty_array (a : value) : M value :=
  if nullish a then new_array [] else ret a.

(** ** The parsers

    An object literal is evaluated left to right and the object is stored
    once its properties are known; the operand of a spread is not stored
    when it is a literal itself.  [m1 ∪ m2] keeps the properties of [m1]
    where both have one, so a later spread or property stands to the left
    of an earlier one. *)

Definition parseRawSendTransaction (r : value) : M value :=
  errorResultXdr ← get r "errorResultXdr";
  diagnosticEventsXdr ← get r "diagnosticEventsXdr";
  delete_property r "errorResultXdr";;
  delete_property r "diagnosticEventsXdr";;
  if truthy errorResultXdr then
    rest ← own_properties r;
    diag ← match diagnosticEventsXdr with
           | VUndef => ret ∅
           | _ =>
               len ← get diagnosticEventsXdr "length";
               nonempty ← gt_zero len;
               if (nonempty : bool) then
                 evts ← array_map (decode DiagnosticEvent) diagnosticEventsXdr;
                 ret {[ "diagnosticEvents" := evts ]}
               else ret ∅
           end;
    errorResult ← decode TransactionResult errorResultXdr;
    new_object (<["errorResult" := errorResult]> (diag ∪ rest))
  else
    rest ← own_properties r;
    new_object rest.

(** [sm?.returnValue()] *)
Definition call_returnValue (sm : optional ext) : value :=
  match sm with
  | Present inv => VExt (sorobanMeta_returnValue inv)
  | IsNull | IsUndefined => VUndef
  end.

Definition parseTransactionInfo (raw : value) : M value :=
  resultMetaXdr ← get raw "resultMetaXdr";
  meta ← lift_codec (Some TransactionMeta) resultMetaXdr
         (fromXDR TransactionMeta resultMetaXdr);
  ledger ← get raw "ledger";
  createdAt ← get raw "createdAt";
  applicationOrder ← get raw "applicationOrder";
  feeBump ← get raw "feeBump";
  envelopeXdr ← get raw "envelopeXdr";
  envelope ← decode TransactionEnvelope envelopeXdr;
  resultXdr ← get raw "resultXdr";
  result ← decode TransactionResult resultXdr;
  info ← new_object
           (<["ledger" := ledger]>
            (<["createdAt" := createdAt]>
             (<["applicationOrder" := applicationOrder]>
              (<["feeBump" := feeBump]>
               (<["envelopeXdr" := envelope]>
                (<["resultXdr" := result]>
                 {[ "resultMetaXdr" := VExt meta ]}))))));
  (if (meta_switch meta =? 3)%Z then
     v3 ← lift_codec None (VExt meta) (meta_v3 meta);
     match v3_sorobanMeta v3 with
     | IsNull => ret tt
     | IsUndefined | Present _ =>
         v3' ← lift_codec None (VExt meta) (meta_v3 meta);
         set_property info "returnValue"
           (call_returnValue (v3_sorobanMeta v3'))
     end
   else ret tt);;
  present ← has_property "diagnosticEventsXdr" raw;
  events ← (if (present : bool) then get raw "diagnosticEventsXdr"
            else ret (VBool false));
  (if truthy events then
     events' ← get raw "diagnosticEventsXdr";
     decoded ← array_map (decode DiagnosticEvent) events';
     set_property info "diagnosticEventsXdr" decoded
   else ret tt);;
  ret info.

Definition parseRawTransactions (r : value) : M value :=
  status ← get r "status";
  info ← parseTransactionInfo r;
  fields ← own_properties info;
  new_object (fields ∪ {[ "status" := status ]}).

(** The callback of [parseRawEvents]. *)
Definition parseEvent (evt : value) : M value :=
  copied ← own_properties evt;
  clone ← new_object copied;
  delete_property clone "contractId";;
  kept ← own_properties clone;
  contractId ← get evt "contractId";
  contract ← (if is_empty_string contractId then ret ∅
              else c ← lift_codec None contractId (newContract contractId);
                   ret {[ "contractId" := VExt c ]});
  topic ← get evt "topic";
  topics ← array_map (decode ScVal) topic;
  payload ← get evt "value";
  decoded ← decode ScVal payload;
  new_object (<["value" := decoded]> (<["topic" := topics]> (contract ∪ kept))).

Definition parseRawEvents (r : value) : M value :=
  latestLedger ← get r "latestLedger";
  events ← get r "events";
  list ← or_empty_array events;
  parsed ← array_map parseEvent list;
  new_object (<["latestLedger" := latestLedger]> {[ "events" := parsed ]}).

(** The callback of [parseRawLedgerEntries]. *)
Definition parseLedgerEntry (rawEntry : value) : M value :=
  key ← get rawEntry "key";
  malformed ← (if truthy key
               then payload ← get rawEntry "xdr"; ret (negb (truthy payload))
               else ret true);
  if (malformed : bool) then throw (InvalidLedgerEntry rawEntry)
  else
    lastModifiedLedgerSeq ← get rawEntry "lastModifiedLedgerSeq";
    key' ← get rawEntry "key";
    decodedKey ← decode LedgerKey key';
    payload ← get rawEntry "xdr";
    val ← decode LedgerEntryData payload;
    liveUntilLedgerSeq ← get rawEntry "liveUntilLedgerSeq";
    live ← match liveUntilLedgerSeq with
           | VUndef => ret ∅
           | _ =>
               again ← get rawEntry "liveUntilLedgerSeq";
               ret {[ "liveUntilLedgerSeq" := again ]}
           end;
    new_object
      (live ∪ (<["lastModifiedLedgerSeq" := lastModifiedLedgerSeq]>
               (<["key" := decodedKey]> {[ "val" := val ]}))).

Definition parseRawLedgerEntries (raw : value) : M value :=
  latestLedger ← get raw "latestLedger";
  entries ← get raw "entries";
  list ← or_empty_array entries;
  parsed ← array_map parseLedgerEntry list;
  new_object (<["latestLedger" := latestLedger]> {[ "entries" := parsed ]}).

(** The callback over [sim.results]. *)
Definition parseResultRow (row : value) : M value :=
  auth ← get row "auth";
  list ← or_empty_array auth;
  entries ← array_map (decode SorobanAuthorizationEntry) list;
  payload ← get row "xdr";
  retval ← (if truthy payload
            then payload' ← get row "xdr"; decode ScVal payload'
            else ret (VExt scvVoid));
  new_object (<["auth" := entries]> {[ "retval" := retval ]}).

(** [x ? xdr.LedgerEntry.fromXDR(x, 'base64') : null] on property [k] *)
Definition parseSnapshot (entryChange : value) (k : string) : M value :=
  x ← get entryChange k;
  if truthy x then x' ← get entryChange k; decode LedgerEntry x'
  else ret VNull.

(** The callback over [sim.stateChanges]. *)
Definition parseStateChange (entryChange : value) : M value :=
  type ← get entryChange "type";
  key ← get entryChange "key";
  decodedKey ← decode LedgerKey key;
  before ← parseSnapshot entryChange "before";
  after ← parseSnapshot entryChange "after";
  new_object
    (<["type" := type]>
     (<["key" := decodedKey]>
      (<["before" := before]> {[ "after" := after ]}))).

(** [sim.k?.length ?? 0 > 0]: the comparison binds tighter than [??]. *)
Definition length_or_false (sim : value) (k : string) : M value :=
  list ← get sim k;
  len ← get_opt list "length";
  ret (coalesce len (VBool (0 >? 0)%Z)).

Definition parseSuccessful (sim partial : value) : M value :=
  base ← own_properties partial;
  transactionData ← get sim "transactionData";
  builder ← lift_codec None transactionData
              (newSorobanDataBuilder transactionData);
  minResourceFee ← get sim "minResourceFee";
  cost ← get sim "cost";
  hasResults ← length_or_false sim "results";
  result ← (if truthy hasResults then
              results ← get sim "results";
              rows ← array_map parseResultRow results;
              row ← first_element rows;
              ret {[ "result" := row ]}
            else ret ∅);
  hasChanges ← length_or_false sim "stateChanges";
  changes ← (if truthy hasChanges then
               stateChanges ← get sim "stateChanges";
               parsed ← (if nullish stateChanges then ret VUndef
                         else array_map parseStateChange stateChanges);
               ret {[ "stateChanges" := parsed ]}
             else ret ∅);
  success ← new_object
              (changes ∪ (result ∪
                 (<["cost" := cost]>
                  (<["minResourceFee" := minResourceFee]>
                   (<["transactionData" := VExt builder]> base)))));
  restorePreamble ← get sim "restorePreamble";
  plain ← (if truthy restorePreamble
           then preamble ← get sim "restorePreamble";
                data ← get preamble "transactionData";
                ret (is_empty_string data)
           else ret true);
  if (plain : bool) then ret success
  else
    fields ← own_properties success;
    preamble ← get sim "restorePreamble";
    fee ← get preamble "minResourceFee";
    preamble' ← get sim "restorePreamble";
    data ← get preamble' "transactionData";
    restoreBuilder ← lift_codec None data (newSorobanDataBuilder data);
    hint ← new_object (<["minResourceFee" := fee]>
                        {[ "transactionData" := VExt restoreBuilder ]});
    new_object (<["restorePreamble" := hint]> fields).

(** [Api.isSimulationRaw(sim)]: it looks at [sim] and changes nothing. *)
Definition looks_raw (sim : value) : M bool :=
  λ h, (inr (isSimulationRaw h sim), h).

Definition parseRawSimulation (sim : value) : M value :=
  looksRaw ← looks_raw sim;
  if negb looksRaw then ret sim
  else
    id ← get sim "id";
    latestLedger ← get sim "latestLedger";
    events ← get sim "events";
    decoded ← (if nullish events then ret VUndef
               else array_map (decode DiagnosticEvent) events);
    list ← or_empty_array decoded;
    base ← new_object
             (<["_parsed" := VBool true]>
              (<["id" := id]>
               (<["latestLedger" := latestLedger]> {[ "events" := list ]})));
    error ← get sim "error";
    if is_string error then
      fields ← own_properties base;
      message ← get sim "error";
      new_object (<["error" := message]> fields)
    else parseSuccessful sim base.

End Model.

(** ** A small codec to run the parsers on

    Payloads decode to themselves tagged with their schema; the empty text
    and ["!"] are rejected.  A transaction meta is on arm 3 when its payload
    starts with ["v3"].  The optional invocation metadata is not set in
    ["v3"] alone, which the accessor reads as [undefined], the way the
    library does; ["v3null"] stands for a decoder that reads it as [null],
    the way the typings declare. *)
Module Sample.

Inductive t :=
  | Decoded (k : xdr_kind) (payload : string)
  | Void
  | ContractOf (id : string)
  | DataBuilder (data : string)
  | MetaV3 (payload : string)
  | InvocationMeta (payload : string)
  | Returned (payload : string).

Definition accepts (s : string) : bool :=
  negb (String.eqb s "") && negb (String.eqb s "!").

Definition sample_fromXDR (k : xdr_kind) (v : value t) : option t :=
  match v with
  | VStr s => if accepts s then Some (Decoded k s) else None
  | _ => None
  end.

Definition sample_newContract (v : value t) : option t :=
  match v with
  | VStr s => if accepts s then Some (ContractOf s) else None
  | _ => None
  end.

Definition sample_newSorobanDataBuilder (v : value t) : option t :=
  match v with
  | VUndef | VNull => Some (DataBuilder "")
  | VStr s => if String.eqb s "" then Some (DataBuilder "")
              else if accepts s then Some (DataBuilder s) else None
  | VExt (DataBuilder s) => Some (DataBuilder s)
  | _ => None
  end.

Definition sample_switch (e : t) : Z :=
  match e with
  | Decoded TransactionMeta s => if String.prefix "v3" s then 3 else 2
  | _ => 0
  end%Z.

Definition sample_v3 (e : t) : option t :=
  match e with
  | Decoded TransactionMeta s => if String.prefix "v3" s then Some (MetaV3 s) else None
  | _ => None
  end.

Definition sample_sorobanMeta (e : t) : optional t :=
  match e with
  | MetaV3 s =>
      if String.eqb s "v3" then IsUndefined
      else if String.eqb s "v3null" then IsNull
      else Present (InvocationMeta s)
  | _ => IsUndefined
  end.

Definition sample_returnValue (e : t) : t :=
  match e with
  | InvocationMeta s => Returned s
  | _ => Void
  end.

#[global] Instance codec : Codec t := {|
  fromXDR := sample_fromXDR;
  newContract := sample_newContract;
  newSorobanDataBuilder := sample_newSorobanDataBuilder;
  scvVoid := Void;
  meta_switch := sample_switch;
  meta_v3 := sample_v3;
  v3_sorobanMeta := sample_sorobanMeta;
  sorobanMeta_returnValue := sample_returnValue
|}.

(** A guard that trusts the parsed-marker. *)
Definition marker_guard (h : heap t) (sim : value t) : bool :=
  match sim with
  | VRef l =>
      match h !! l with
      | Some (OPlain m) =>
          match m !! "_parsed" with
          | Some (VBool true) => false
          | _ => true
          end
      | _ => true
      end
  | _ => true
  end.

#[global] Instance guard : ShapeGuard t := {| isSimulationRaw := marker_guard |}.

(** [{ key: "!", xdr: "AAAA", lastModifiedLedgerSeq: 5 }]: the key does
    not decode. *)
Definition entry_bad_key : gmap string (value t) :=
  <["key" := VStr "!"]>
    (<["xdr" := VStr "AAAA"]> {[ "lastModifiedLedgerSeq" := VNum 5 ]}).

(** [{ key: "AAAA", xdr: "BBBB", lastModifiedLedgerSeq: 5 }] *)
Definition entry_good : gmap string (value t) :=
  <["key" := VStr "AAAA"]>
    (<["xdr" := VStr "BBBB"]> {[ "lastModifiedLedgerSeq" := VNum 5 ]}).

(** [{ lastModifiedLedgerSeq: 7 }]: neither key nor xdr. *)
Definition entry_malformed : gmap string (value t) :=
  {[ "lastModifiedLedgerSeq" := VNum 7 ]}.

(** [{ latestLedger: 9, entries: [ ... ] }], the list at location 2 *)
Definition ledger_props : gmap string (value t) :=
  <["latestLedger" := VNum 9]> {[ "entries" := VRef 2%nat ]}.

(** The entry whose key does not decode, then the malformed one. *)
Definition ledger_heap : heap t :=
  [ OPlain entry_bad_key; OPlain entry_malformed;
    OArray [VRef 0%nat; VRef 1%nat]; OPlain ledger_props ].

(** An entry that decodes, then the malformed one. *)
Definition ledger_heap_second_malformed : heap t :=
  [ OPlain entry_good; OPlain entry_malformed;
    OArray [VRef 0%nat; VRef 1%nat]; OPlain ledger_props ].





(** [{ latestLedger: 7 }]: neither [events] nor [entries]. *)
Definition bare_props : gmap string (value t) :=
  {[ "latestLedger" := VNum 7 ]}.

Definition bare_heap : heap t := [ OPlain bare_props ].

(** [{ ledger: 1, createdAt: 2, applicationOrder: 1, feeBump: false,
      envelopeXdr: "ENV", resultXdr: "RES", resultMetaXdr: "v3ret" }] *)
Definition transaction_props : gmap string (value t) :=
  <["ledger" := VNum 1]>
    (<["createdAt" := VNum 2]>
     (<["applicationOrder" := VNum 1]>
      (<["feeBump" := VBool false]>
       (<["envelopeXdr" := VStr "ENV"]>
        (<["resultXdr" := VStr "RES"]>
         {[ "resultMetaXdr" := VStr "v3ret" ]}))))).

Definition transaction_heap : heap t := [ OPlain transaction_props ].

(** The same transaction with [resultMetaXdr: "v3"]: a meta on arm 3 whose
    invocation metadata is not set, as for a transaction that invokes no
    contract. *)
Definition transaction_classic_props : gmap string (value t) :=
  <["resultMetaXdr" := VStr "v3"]> transaction_props.

Definition transaction_classic_heap : heap t :=
  [ OPlain transaction_classic_props ].

(** The same transaction with [resultMetaXdr: "v3null"]. *)
Definition transaction_null_props : gmap string (value t) :=
  <["resultMetaXdr" := VStr "v3null"]> transaction_props.

Definition transaction_null_heap : heap t :=
  [ OPlain transaction_null_props ].

(** [{ xdr: "VOID", auth: [] }] *)
Definition result_row : gmap string (value t) :=
  <["xdr" := VStr "VOID"]> {[ "auth" := VRef 0%nat ]}.

(** [{ type: 1, key: "KEY", before: null, after: "NEW" }] *)
Definition state_change : gmap string (value t) :=
  <["type" := VNum 1]>
    (<["key" := VStr "KEY"]>
     (<["before" := VNull]> {[ "after" := VStr "NEW" ]})).

(** [{ transactionData: "", minResourceFee: "0" }] *)
Definition empty_preamble : gmap string (value t) :=
  <["transactionData" := VStr ""]> {[ "minResourceFee" := VStr "0" ]}.

(** [{ id: "1", latestLedger: 100, results: [ row ],
      stateChanges: [ change ], transactionData: "DATA",
      minResourceFee: "100", cost: { }, restorePreamble: preamble }] *)
Definition simulation_props : gmap string (value t) :=
  <["id" := VStr "1"]>
    (<["latestLedger" := VNum 100]>
     (<["results" := VRef 2%nat]>
      (<["stateChanges" := VRef 4%nat]>
       (<["transactionData" := VStr "DATA"]>
        (<["minResourceFee" := VStr "100"]>
         (<["cost" := VRef 5%nat]>
          {[ "restorePreamble" := VRef 6%nat ]})))))).

Definition simulation_heap : heap t :=
  [ OArray []; OPlain result_row; OArray [VRef 1%nat];
    OPlain state_change; OArray [VRef 3%nat];
    OPlain ∅; OPlain empty_preamble; OPlain simulation_props ].

(** [{ id: "2", latestLedger: 100, stateChanges: [],
      transactionData: "DATA", minResourceFee: "100", cost: { } }]: the
    list of state changes is there, and empty. *)
Definition simulation_no_changes_props : gmap string (value t) :=
  <["id" := VStr "2"]>
    (<["latestLedger" := VNum 100]>
     (<["stateChanges" := VRef 0%nat]>
      (<["transactionData" := VStr "DATA"]>
       (<["minResourceFee" := VStr "100"]>
        {[ "cost" := VRef 1%nat ]})))).

Definition simulation_heap_no_changes : heap t :=
  [ OArray []; OPlain ∅; OPlain simulation_no_changes_props ].

(** [{ status: "ERROR", hash: "ab", errorResultXdr: "AAAA",
      diagnosticEventsXdr: [] }] *)
Definition send_error_props : gmap string (value t) :=
  <["status" := VStr "ERROR"]>
    (<["hash" := VStr "ab"]>
     (<["errorResultXdr" := VStr "AAAA"]>
      {[ "diagnosticEventsXdr" := VRef 0%nat ]})).

Definition send_error_heap : heap t :=
  [ OArray []; OPlain send_error_props ].

(** [{ key: "CCCC", xdr: "DDDD", lastModifiedLedgerSeq: 6,
      liveUntilLedgerSeq: 40 }] *)
Definition entry_live : gmap string (value t) :=
  <["key" := VStr "CCCC"]>
    (<["xdr" := VStr "DDDD"]>
     (<["lastModifiedLedgerSeq" := VNum 6]>
      {[ "liveUntilLedgerSeq" := VNum 40 ]})).

(** Two entries that decode, the second with a live-until ledger. *)
Definition ledger_heap_good : heap t :=
  [ OPlain entry_good; OPlain entry_live;
    OArray [VRef 0%nat; VRef 1%nat]; OPlain ledger_props ].

(** [{ status: "SUCCESS", ledger: 1, createdAt: 2, applicationOrder: 1,
      feeBump: false, envelopeXdr: "ENV", resultXdr: "RES",
      resultMetaXdr: "v2", diagnosticEventsXdr: [ "EVT" ] }] *)
Definition transaction_status_props : gmap string (value t) :=
  <["status" := VStr "SUCCESS"]>
    (<["ledger" := VNum 1]>
     (<["createdAt" := VNum 2]>
      (<["applicationOrder" := VNum 1]>
       (<["feeBump" := VBool false]>
        (<["envelopeXdr" := VStr "ENV"]>
         (<["resultXdr" := VStr "RES"]>
          (<["resultMetaXdr" := VStr "v2"]>
           {[ "diagnosticEventsXdr" := VRef 0%nat ]}))))))).

Definition transaction_status_heap : heap t :=
  [ OArray [VStr "EVT"]; OPlain transaction_status_props ].

(** [{ envelopeXdr: "!", resultXdr: "RES", resultMetaXdr: "!" }]: neither
    the metadata nor the envelope decodes. *)
Definition transaction_bad_meta_props : gmap string (value t) :=
  <["envelopeXdr" := VStr "!"]>
    (<["resultXdr" := VStr "RES"]> {[ "resultMetaXdr" := VStr "!" ]}).

Definition transaction_bad_meta_heap : heap t :=
  [ OPlain transaction_bad_meta_props ].

(** [{ id: "3", latestLedger: 100, events: [ "EVT" ], error: "boom",
      transactionData: "!" }]: an error response whose success fields would
    not decode. *)
Definition simulation_error_props : gmap string (value t) :=
  <["id" := VStr "3"]>
    (<["latestLedger" := VNum 100]>
     (<["events" := VRef 0%nat]>
      (<["error" := VStr "boom"]> {[ "transactionData" := VStr "!" ]}))).

Definition simulation_error_heap : heap t :=
  [ OArray [VStr "EVT"]; OPlain simulation_error_props ].

(** [{ transactionData: "RDATA", minResourceFee: "5" }] *)
Definition restore_preamble : gmap string (value t) :=
  <["transactionData" := VStr "RDATA"]> {[ "minResourceFee" := VStr "5" ]}.

(** [{ id: "4", latestLedger: 100, transactionData: "DATA",
      minResourceFee: "100", cost: { }, restorePreamble: preamble }] *)
Definition simulation_restore_props : gmap string (value t) :=
  <["id" := VStr "4"]>
    (<["latestLedger" := VNum 100]>
     (<["transactionData" := VStr "DATA"]>
      (<["minResourceFee" := VStr "100"]>
       (<["cost" := VRef 0%nat]>
        {[ "restorePreamble" := VRef 1%nat ]})))).

Definition simulation_restore_heap : heap t :=
  [ OPlain ∅; OPlain restore_preamble; OPlain simulation_restore_props ].

(** [{ xdr: "!" }]: a results row whose return value does not decode. *)
Definition result_row_bad : gmap string (value t) :=
  {[ "xdr" := VStr "!" ]}.

(** [{ id: "5", latestLedger: 100, results: [ good row, bad row ],
      transactionData: "DATA", minResourceFee: "100", cost: { } }] *)
Definition simulation_two_rows_props : gmap string (value t) :=
  <["id" := VStr "5"]>
    (<["latestLedger" := VNum 100]>
     (<["results" := VRef 3%nat]>
      (<["transactionData" := VStr "DATA"]>
       (<["minResourceFee" := VStr "100"]>
        {[ "cost" := VRef 4%nat ]})))).

Definition simulation_two_rows_heap : heap t :=
  [ OArray []; OPlain result_row; OPlain result_row_bad;
    OArray [VRef 1%nat; VRef 2%nat]; OPlain ∅;
    OPlain simulation_two_rows_props ].

(** [{ status: "ERROR", errorResultXdr: "AAAA", diagnosticEventsXdr: null }] *)
Definition send_null_events_props : gmap string (value t) :=
  <["status" := VStr "ERROR"]>
    (<["errorResultXdr" := VStr "AAAA"]>
     {[ "diagnosticEventsXdr" := VNull ]}).

Definition send_null_events_heap : heap t :=
  [ OPlain send_null_events_props ].

(** [{ status: "ERROR", errorResultXdr: "AAAA",
      diagnosticEventsXdr: [ "EVT" ] }] *)
Definition send_events_props : gmap string (value t) :=
  <["status" := VStr "ERROR"]>
    (<["errorResultXdr" := VStr "AAAA"]>
     {[ "diagnosticEventsXdr" := VRef 0%nat ]}).

Definition send_events_heap : heap t :=
  [ OArray [VStr "EVT"]; OPlain send_events_props ].

(** [{ topic: [], value: "CCC" }]: an event without [contractId]. *)
Definition event_no_contract : gmap string (value t) :=
  <["topic" := VRef 0%nat]> {[ "value" := VStr "CCC" ]}.

(** [{ latestLedger: 7, events: [ that event ] }] *)
Definition events_no_contract_props : gmap string (value t) :=
  <["latestLedger" := VNum 7]> {[ "events" := VRef 2%nat ]}.

Definition events_no_contract_heap : heap t :=
  [ OArray []; OPlain event_no_contract; OArray [VRef 1%nat];
    OPlain events_no_contract_props ].

(** [{ }]: a results row with neither [auth] nor [xdr]. *)
Definition result_row_bare : gmap string (value t) := ∅.

(** [{ id: "6", latestLedger: 100, results: [ { } ],
      transactionData: "DATA", minResourceFee: "100", cost: { } }] *)
Definition simulation_void_props : gmap string (value t) :=
  <["id" := VStr "6"]>
    (<["latestLedger" := VNum 100]>
     (<["results" := VRef 1%nat]>
      (<["transactionData" := VStr "DATA"]>
       (<["minResourceFee" := VStr "100"]>
        {[ "cost" := VRef 2%nat ]})))).

Definition simulation_void_heap : heap t :=
  [ OPlain result_row_bare; OArray [VRef 0%nat]; OPlain ∅;
    OPlain simulation_void_props ].

End Sample.

(** ** Vocabulary of the statements *)

Section Vocabulary.
Context {ext : Type} `{!Codec ext}.

Implicit Types (h : heap ext) (v x : value ext) (l : loc) (k : string).
Implicit Types (m : gmap string (value ext)) (xs ys : list (value ext)).

(** [v] is a plain object with properties [m] / an array with elements [xs]. *)
Definition is_object h v m : Prop :=
  ∃ l, v = VRef l ∧ h !! l = Some (OPlain m).

Definition is_array h v xs : Prop :=
  ∃ l, v = VRef l ∧ h !! l = Some (OArray xs).

(** The value read at property [k]. *)
Definition field m k : value ext := default VUndef (m !! k).

(** [y] is the decoding of [x] under schema [kd]. *)
Definition decodes kd x y : Prop :=
  ∃ e, fromXDR kd x = Some e ∧ y = VExt e.

(** What [parseRawSendTransaction] keeps of the raw properties. *)
Definition send_rest m : gmap string (value ext) :=
  delete "diagnosticEventsXdr" (delete "errorResultXdr" m).

(** Running [c] from [h] leaves the objects at the locations below [n] as
    they are (it may create objects, and change those it created). *)
Definition keeps {A} (n : nat) (c : M A) h : Prop :=
  (n ≤ length h)%nat →
  (n ≤ length (c h).2)%nat ∧ take n (c h).2 = take n h.


(** A raw ledger entry that has its [key] and its [xdr], both of which
    decode. *)
Definition entry_decodes h (e : value ext) : Prop :=
  ∃ me, is_object h e me ∧
    truthy (field me "key") = true ∧ truthy (field me "xdr") = true ∧
    is_Some (fromXDR LedgerKey (field me "key")) ∧
    is_Some (fromXDR LedgerEntryData (field me "xdr")).

(** What [parseRawLedgerEntries] attaches for a raw [liveUntilLedgerSeq]. *)
Definition live_until (raw : value ext) : option (value ext) :=
  match raw with
  | VUndef => None
  | _ => Some raw
  end.

(** [o] is the ledger entry parsed from the raw entry [e]: it has the four
    properties below and no other. *)
Definition entry_parsed h h' (e o : value ext) : Prop :=
  ∀ me, is_object h e me →
  ∃ mo, is_object h' o mo ∧
    mo !! "lastModifiedLedgerSeq" = Some (field me "lastModifiedLedgerSeq") ∧
    decodes LedgerKey (field me "key") (field mo "key") ∧
    decodes LedgerEntryData (field me "xdr") (field mo "val") ∧
    mo !! "liveUntilLedgerSeq" = live_until (field me "liveUntilLedgerSeq") ∧
    (∀ k, k ≠ "lastModifiedLedgerSeq" → k ≠ "key" → k ≠ "val" →
          k ≠ "liveUntilLedgerSeq" → mo !! k = None).

(** The properties [parseTransactionInfo] starts its output with. *)
Definition info_base m (envelope result meta : ext) : gmap string (value ext) :=
  <["ledger" := field m "ledger"]>
    (<["createdAt" := field m "createdAt"]>
     (<["applicationOrder" := field m "applicationOrder"]>
      (<["feeBump" := field m "feeBump"]>
       (<["envelopeXdr" := VExt envelope]>
        (<["resultXdr" := VExt result]>
         {[ "resultMetaXdr" := VExt meta ]}))))).

(** The payloads of [xs] all decode under schema [kd]. *)
Definition all_decode kd xs : Prop :=
  Forall (λ x, is_Some (fromXDR kd x)) xs.

(** [r] is the scalar result made of the raw results row [row]. *)
Definition result_parsed h h' (row r : value ext) : Prop :=
  ∀ mrow, is_object h row mrow →
  ∃ mr auths,
    is_object h' r mr ∧
    is_array h' (field mr "auth") auths ∧
    (nullish (field mrow "auth") = true → auths = []) ∧
    (∀ entries, is_array h (field mrow "auth") entries →
                Forall2 (decodes SorobanAuthorizationEntry) entries auths) ∧
    (if truthy (field mrow "xdr")
     then decodes ScVal (field mrow "xdr") (field mr "retval")
     else mr !! "retval" = Some (VExt scvVoid)).

(** [out] is the snapshot parsed from the raw [before]/[after] value [raw]:
    [null] exactly when [raw] is falsy (absent, null or empty). *)
Definition snapshot_parsed (raw : value ext) (out : option (value ext)) : Prop :=
  (out = Some VNull ↔ truthy raw = false) ∧
  (truthy raw = true → ∃ y, out = Some y ∧ decodes LedgerEntry raw y).

(** [o] is the state change parsed from the raw state change [c]. *)
Definition change_parsed h h' (c o : value ext) : Prop :=
  ∀ mc, is_object h c mc →
  ∃ mo, is_object h' o mo ∧
    mo !! "type" = Some (field mc "type") ∧
    decodes LedgerKey (field mc "key") (field mo "key") ∧
    snapshot_parsed (field mc "before") (mo !! "before") ∧
    snapshot_parsed (field mc "after") (mo !! "after").

(** What the success shape gets for the raw [results] of [ms]: nothing but
    a [result], none when [results] is undefined, null or an empty array,
    and for a non-empty array the scalar made of its first row. *)
Definition result_part_ok h h' ms (part : gmap string (value ext)) : Prop :=
  (∀ k, k ≠ "result" → part !! k = None) ∧
  (nullish (field ms "results") = true → part !! "result" = None) ∧
  (∀ rows, is_array h (field ms "results") rows →
     match rows with
     | [] => part !! "result" = None
     | row :: _ => ∃ r, part !! "result" = Some r ∧ result_parsed h h' row r
     end).

(** What the success shape gets for the raw [stateChanges] of [ms]. *)
Definition changes_part_ok h h' ms (part : gmap string (value ext)) : Prop :=
  (∀ k, k ≠ "stateChanges" → part !! k = None) ∧
  (nullish (field ms "stateChanges") = true →
   part !! "stateChanges" = None) ∧
  (∀ cs, is_array h (field ms "stateChanges") cs →
     match cs with
     | [] => part !! "stateChanges" = None
     | _ :: _ =>
         ∃ sc outs, part !! "stateChanges" = Some sc ∧
                    is_array h' sc outs ∧
                    Forall2 (change_parsed h h') cs outs
     end).

(** The properties of the success shape, before any restore hint. *)
Definition success_props ms (mb : gmap string (value ext)) (builder : ext)
    (part_r part_c : gmap string (value ext)) : gmap string (value ext) :=
  part_c ∪ (part_r ∪
    (<["cost" := field ms "cost"]>
     (<["minResourceFee" := field ms "minResourceFee"]>
      (<["transactionData" := VExt builder]> mb)))).

(** [hint] is the restore hint made of the raw [restorePreamble] of [ms]. *)
Definition restore_hint_ok h h' ms (hint : value ext) : Prop :=
  ∀ mrp, is_object h (field ms "restorePreamble") mrp →
    field mrp "transactionData" ≠ VStr "" ∧
    ∃ rb, newSorobanDataBuilder (field mrp "transactionData") = Some rb ∧
          is_object h' hint
            (<["minResourceFee" := field mrp "minResourceFee"]>
               {[ "transactionData" := VExt rb ]}).

(** The base properties shared by the three simulation shapes. *)
Definition base_props ms (events : value ext) : gmap string (value ext) :=
  <["_parsed" := VBool true]>
    (<["id" := field ms "id"]>
     (<["latestLedger" := field ms "latestLedger"]> {[ "events" := events ]})).

(** The three shapes of a parsed simulation, told by their properties. *)
Inductive variant := Error | Success | RestoreHint.

Definition variant_of (mo : gmap string (value ext)) : option variant :=
  match mo !! "error", mo !! "restorePreamble", mo !! "transactionData" with
  | Some _, None, None => Some Error
  | None, None, Some _ => Some Success
  | None, Some _, Some _ => Some RestoreHint
  | _, _, _ => None
  end.

(** [v] is undefined, null, or an array whose elements all satisfy [P]. *)
Definition absent_or_all h (P : value ext → Prop) v : Prop :=
  nullish v = true ∨ ∃ xs, is_array h v xs ∧ Forall P xs.

(** A raw results row the codec takes: an object whose [auth] is undefined,
    null or an array of payloads that decode, and whose [xdr] decodes when
    it is truthy. *)
Definition row_decodes h (row : value ext) : Prop :=
  ∃ mrow, is_object h row mrow ∧
    absent_or_all h (λ x, is_Some (fromXDR SorobanAuthorizationEntry x))
      (field mrow "auth") ∧
    (truthy (field mrow "xdr") = true →
     is_Some (fromXDR ScVal (field mrow "xdr"))).

(** A raw state change the codec takes: an object whose [key] decodes, and
    whose [before] and [after] decode when they are truthy. *)
Definition change_decodes h (c : value ext) : Prop :=
  ∃ mc, is_object h c mc ∧
    is_Some (fromXDR LedgerKey (field mc "key")) ∧
    (truthy (field mc "before") = true →
     is_Some (fromXDR LedgerEntry (field mc "before"))) ∧
    (truthy (field mc "after") = true →
     is_Some (fromXDR LedgerEntry (field mc "after"))).

(** A raw [restorePreamble] the codec takes: a falsy value, or an object
    whose [transactionData] is the empty string or makes a builder. *)
Definition preamble_decodes h (rp : value ext) : Prop :=
  truthy rp = false ∨
  ∃ mrp, is_object h rp mrp ∧
    (field mrp "transactionData" ≠ VStr "" →
     is_Some (newSorobanDataBuilder (field mrp "transactionData"))).

(** The raw [events] of [ms] are undefined, null or payloads that decode. *)
Definition events_decode h ms : Prop :=
  absent_or_all h (λ x, is_Some (fromXDR DiagnosticEvent x))
    (field ms "events").

(** The codec takes all that the success shapes are made of. *)
Definition success_decodes h ms : Prop :=
  is_Some (newSorobanDataBuilder (field ms "transactionData")) ∧
  absent_or_all h (row_decodes h) (field ms "results") ∧
  absent_or_all h (change_decodes h) (field ms "stateChanges") ∧
  preamble_decodes h (field ms "restorePreamble").

(** A guard that takes every object carrying the parsed-marker for parsed. *)
Definition guard_trusts_marker `{!ShapeGuard ext} : Prop :=
  ∀ h v m, is_object h v m → m !! "_parsed" = Some (VBool true) →
           isSimulationRaw h v = false.

End Vocabulary.

(** ** Reasoning about computations *)

Section Reasoning.
Context {ext : Type} `{!Codec ext} `{!ShapeGuard ext}.

Implicit Types (h : heap ext) (v x : value ext) (l : loc) (k : string).
Implicit Types (m : gmap string (value ext)) (xs ys : list (value ext)).

Lemma bind_unfold {A B} (c : M A) (f : A → M B) h :
  (c ≫= f) h =
  match c h with
  | (inl e, h') => (inl e, h')
  | (inr a, h') => f a h'
  end.
Proof. reflexivity. Qed.

Lemma bind_inr {A B} (c : M A) (f : A → M B) h b h' :
  (c ≫= f) h = (inr b, h') →
  ∃ a h1, c h = (inr a, h1) ∧ f a h1 = (inr b, h').
Proof.
  rewrite bind_unfold. destruct (c h) as [[e|a] h1]; [discriminate|]. eauto.
Qed.

Lemma bind_ok {A B} (c : M A) (f : A → M B) h a h1 :
  c h = (inr a, h1) → (c ≫= f) h = f a h1.
Proof. intros E. rewrite bind_unfold. by rewrite E. Qed.

Lemma get_plain h l m k :
  h !! l = Some (OPlain m) → get (VRef l) k h = (inr (field m k), h).
Proof. intros E. unfold get. by rewrite E. Qed.

Lemma get_length h l xs :
  h !! l = Some (OArray xs) →
  get (VRef l) "length" h = (inr (VNum (Z.of_nat (length xs))), h).
Proof. intros E. unfold get. by rewrite E. Qed.

Lemma own_properties_plain h l m :
  h !! l = Some (OPlain m) → own_properties (VRef l) h = (inr m, h).
Proof. intros E. unfold own_properties. by rewrite E. Qed.

Lemma delete_property_plain h l m k :
  h !! l = Some (OPlain m) →
  delete_property (VRef l) k h = (inr tt, <[l := OPlain (delete k m)]> h).
Proof. intros E. unfold delete_property. by rewrite E. Qed.

(** Reads leave the store alone. *)
Lemma get_heap v k h r h' : get v k h = (r, h') → h' = h.
Proof.
  unfold get. intros E.
  destruct v as [| |b|n|s|e|l]; try (by inversion E).
  - destruct (String.eqb k "length"); by inversion E.
  - destruct (h !! l) as [[m|xs]|]; try (by inversion E).
    destruct (String.eqb k "length"); by inversion E.
Qed.

Lemma get_opt_heap v k h r h' : get_opt v k h = (r, h') → h' = h.
Proof.
  unfold get_opt. destruct (nullish v); [by inversion 1|apply get_heap].
Qed.

Lemma lift_codec_inr {A} ko arg (r : option A) h a h' :
  lift_codec ko arg r h = (inr a, h') → r = Some a ∧ h' = h.
Proof. destruct r; inversion 1; auto. Qed.

Lemma decode_inr kd v h y h' :
  decode kd v h = (inr y, h') →
  ∃ e, fromXDR kd v = Some e ∧ y = VExt e ∧ h' = h.
Proof.
  unfold decode. intros E. apply bind_inr in E as (e & h1 & E1 & E2).
  apply lift_codec_inr in E1 as [E1 ->]. inversion E2; subst. eauto.
Qed.

Lemma decode_ok kd v e h :
  fromXDR kd v = Some e → decode kd v h = (inr (VExt e), h).
Proof. intros E. unfold decode. rewrite bind_unfold. by rewrite E. Qed.

(** [mapM] with a callback that only reads the store. *)
Lemma mapM_decode_inr kd xs h ys h' :
  mapM (decode kd) xs h = (inr ys, h') →
  h' = h ∧ Forall2 (decodes kd) xs ys.
Proof.
  revert h ys h'. induction xs as [|x xs IH]; intros h ys h' E.
  - inversion E; subst. split; [done|constructor].
  - cbn [mapM] in E.
    apply bind_inr in E as (y & h1 & E1 & E).
    apply decode_inr in E1 as (e & He & -> & ->).
    apply bind_inr in E as (ys' & h2 & E2 & E).
    apply IH in E2 as [-> F]. inversion E; subst.
    split; [done|]. constructor; [by exists e|done].
Qed.


Lemma array_map_decode_inr kd v h y h' :
  array_map (decode kd) v h = (inr y, h') →
  ∃ xs ys, is_array h v xs ∧ y = VRef (length h) ∧ h' = h ++ [OArray ys] ∧
    Forall2 (decodes kd) xs ys.
Proof.
  unfold array_map. intros E.
  destruct v as [| |b|n|s|e|l]; try discriminate.
  destruct (h !! l) as [[m|xs]|] eqn:El; try discriminate.
  apply bind_inr in E as (ys & h1 & E1 & E).
  apply mapM_decode_inr in E1 as [-> F].
  inversion E; subst. exists xs, ys. repeat split; eauto. by exists l.
Qed.

Lemma lookup_alloc_old h (o o' : obj ext) l :
  h !! l = Some o → (h ++ [o']) !! l = Some o.
Proof. intros E. by apply lookup_app_l_Some. Qed.

Lemma lookup_alloc_new h (o : obj ext) : (h ++ [o]) !! length h = Some o.
Proof. by rewrite lookup_app_r, Nat.sub_diag. Qed.

End Reasoning.

(** ** parseRawSendTransaction *)

Section SendTransaction.
Context {ext : Type} `{!Codec ext} `{!ShapeGuard ext}.

Implicit Types (h : heap ext) (v x : value ext) (l : loc) (k : string).
Implicit Types (m : gmap string (value ext)) (xs ys : list (value ext)).

Lemma send_prefix h l m :
  h !! l = Some (OPlain m) →
  ∀ (f : value ext → value ext → M (value ext)),
  (get (VRef l) "errorResultXdr" ≫= λ a,
   get (VRef l) "diagnosticEventsXdr" ≫= λ b,
   delete_property (VRef l) "errorResultXdr" ;;
   delete_property (VRef l) "diagnosticEventsXdr" ;;
   f a b) h =
  f (field m "errorResultXdr") (field m "diagnosticEventsXdr")
    (<[l := OPlain (send_rest m)]> h).
Proof.
  intros Hl f.
  assert (l < length h)%nat as Hlt by (by eapply lookup_lt_Some).
  rewrite (bind_ok _ _ _ _ _ (get_plain _ _ _ _ Hl)).
  rewrite (bind_ok _ _ _ _ _ (get_plain _ _ _ _ Hl)).
  rewrite (bind_ok _ _ _ _ _ (delete_property_plain _ _ _ _ Hl)).
  erewrite bind_ok; last first.
  { apply delete_property_plain. by apply list_lookup_insert_eq. }
  by rewrite list_insert_insert_eq.
Qed.

Lemma is_array_update h l m m' v xs :
  h !! l = Some (OPlain m) →
  is_array (<[l := OPlain m']> h) v xs ↔ is_array h v xs.
Proof.
  intros Hl. unfold is_array. split; intros (l' & -> & E); exists l'; split; try done.
  - destruct (decide (l = l')) as [<-|Hne].
    + rewrite list_lookup_insert_eq in E by (by eapply lookup_lt_Some). congruence.
    + by rewrite list_lookup_insert_ne in E.
  - destruct (decide (l = l')) as [<-|Hne]; [congruence|].
    by rewrite list_lookup_insert_ne.
Qed.



End SendTransaction.

Section Frame.
Context {ext : Type} `{!Codec ext} `{!ShapeGuard ext}.

Implicit Types (h : heap ext) (v x : value ext) (l : loc) (k : string).
Implicit Types (m : gmap string (value ext)) (xs ys : list (value ext)).

Lemma keeps_read {A} n (c : M A) h : (c h).2 = h → keeps n c h.
Proof. intros E Hn. by rewrite E. Qed.

Lemma keeps_ret {A} n (a : A) h : keeps n (mret a) h.
Proof. by apply keeps_read. Qed.

Lemma keeps_throw {A} n e h : keeps n (throw e : M A) h.
Proof. by apply keeps_read. Qed.

Lemma keeps_bind {A B} n (c : M A) (f : A → M B) h :
  keeps n c h →
  (∀ a h1, (n ≤ length h)%nat → c h = (inr a, h1) → (n ≤ length h1)%nat →
           keeps n (f a) h1) →
  keeps n (c ≫= f) h.
Proof.
  intros Hc Hf Hn. rewrite bind_unfold.
  destruct (Hc Hn) as [Hn1 Ht]. destruct (c h) as [[e|a] h1] eqn:E; [done|].
  cbn in Hn1, Ht. destruct (Hf a h1 Hn eq_refl Hn1 Hn1) as [Hn2 Ht2].
  split; [done|]. by rewrite Ht2.
Qed.

Lemma keeps_get n v k h : keeps n (get v k) h.
Proof.
  apply keeps_read. destruct (get v k h) as [r h'] eqn:E.
  by apply get_heap in E.
Qed.

Lemma keeps_get_opt n v k h : keeps n (get_opt v k) h.
Proof.
  apply keeps_read. destruct (get_opt v k h) as [r h'] eqn:E.
  by apply get_opt_heap in E.
Qed.

Lemma keeps_own_properties n v h : keeps n (own_properties v) h.
Proof.
  apply keeps_read. unfold own_properties.
  destruct v as [| |b|z|s|e|l]; try done.
  - by destruct (String.eqb s "").
  - by destruct (h !! l) as [[m|xs]|].
Qed.

Lemma keeps_has_property n k v h : keeps n (has_property k v) h.
Proof.
  apply keeps_read. unfold has_property.
  destruct v as [| |b|z|s|e|l]; try done.
  destruct (h !! l) as [[m|xs]|]; try done.
  by destruct (String.eqb k "length").
Qed.

Lemma keeps_first_element n v h : keeps n (first_element v) h.
Proof.
  apply keeps_read. unfold first_element.
  destruct v as [| |b|z|s|e|l]; try done.
  by destruct (h !! l) as [[m|xs]|].
Qed.

Lemma keeps_gt_zero n v h : keeps n (gt_zero v) h.
Proof.
  apply keeps_read. destruct v as [| |b|z|s|e|l]; try done.
  cbn. by destruct (String.eqb s "").
Qed.

Lemma keeps_lift_codec {A} n ko arg (r : option A) h :
  keeps n (lift_codec ko arg r) h.
Proof. apply keeps_read. by destruct r. Qed.

Lemma keeps_decode n kd v h : keeps n (decode kd v) h.
Proof.
  apply keeps_bind; [apply keeps_lift_codec|]. intros. apply keeps_ret.
Qed.

Lemma keeps_looks_raw n v h : keeps n (looks_raw v) h.
Proof. by apply keeps_read. Qed.

Lemma keeps_alloc n o h : keeps n (alloc o) h.
Proof.
  intros Hn. cbn. rewrite length_app. split; [lia|]. by rewrite take_app_le.
Qed.

Lemma keeps_new_object n m h : keeps n (new_object m) h.
Proof. apply keeps_alloc. Qed.

Lemma keeps_new_array n xs h : keeps n (new_array xs) h.
Proof. apply keeps_alloc. Qed.

Lemma keeps_or_empty_array n v h : keeps n (or_empty_array v) h.
Proof.
  unfold or_empty_array. destruct (nullish v);
    [apply keeps_new_array|apply keeps_ret].
Qed.

(** Deleting from, or writing to, an object created after [n]. *)
Lemma keeps_delete_property n v k h :
  (∀ l, v = VRef l → (n ≤ l)%nat) → keeps n (delete_property v k) h.
Proof.
  intros Hv Hn. unfold delete_property.
  destruct v as [| |b|z|s|e|l]; try done.
  destruct (h !! l) as [[m|xs]|]; try done. cbn.
  rewrite length_insert. split; [done|].
  apply take_insert_ge. by apply Hv.
Qed.

Lemma keeps_set_property n v k x h :
  (∀ l, v = VRef l → (n ≤ l)%nat) → keeps n (set_property v k x) h.
Proof.
  intros Hv Hn. unfold set_property.
  destruct v as [| |b|z|s|e|l]; try done.
  destruct (h !! l) as [[m|xs]|]; try done. cbn.
  rewrite length_insert. split; [done|].
  apply take_insert_ge. by apply Hv.
Qed.

Lemma keeps_mapM {A B} n (f : A → M B) (zs : list A) h :
  (∀ z h0, keeps n (f z) h0) → keeps n (mapM f zs) h.
Proof.
  intros Hf. revert h. induction zs as [|z zs IH]; intros h.
  - apply keeps_ret.
  - cbn [mapM]. apply keeps_bind; [apply Hf|]. intros b h1 _ _ _.
    apply keeps_bind; [apply IH|]. intros bs h2 _ _ _. apply keeps_ret.
Qed.

Lemma keeps_array_map n (f : value ext → M (value ext)) v h :
  (∀ z h0, keeps n (f z) h0) → keeps n (array_map f v) h.
Proof.
  intros Hf Hn. unfold array_map.
  destruct v as [| |b|z|s|e|l]; try done.
  destruct (h !! l) as [[m|xs]|]; try done.
  apply (keeps_bind n (mapM f xs) (λ ys, new_array ys) h); [|..|done].
  - by apply keeps_mapM.
  - intros. apply keeps_new_array.
Qed.

Lemma new_object_inr m h y h' :
  new_object m h = (inr y, h') → y = VRef (length h) ∧ h' = h ++ [OPlain m].
Proof. by inversion 1. Qed.

(** What a computation leaves alone stays readable. *)
Lemma keeps_lookup {A} (c : M A) h l :
  keeps (length h) c h → (l < length h)%nat → (c h).2 !! l = h !! l.
Proof.
  intros Hc Hl. destruct (Hc (le_n _)) as [_ Ht].
  transitivity (take (length h) (c h).2 !! l).
  - symmetry. by apply lookup_take_lt.
  - rewrite Ht. by apply lookup_take_lt.
Qed.

Lemma keeps_prefix {A} (c : M A) h :
  keeps (length h) c h → h `prefix_of` (c h).2.
Proof.
  intros Hc. destruct (Hc (le_n _)) as [_ Ht].
  rewrite (take_ge h) in Ht by done.
  pose proof (take_drop (length h) (c h).2) as E. rewrite Ht in E.
  by exists (drop (length h) (c h).2).
Qed.

Lemma is_new_ref n h v :
  v = VRef (length h) → (n ≤ length h)%nat → ∀ l, v = VRef l → (n ≤ l)%nat.
Proof. intros -> Hn l [= <-]. done. Qed.
End Frame.

Ltac keeps_prim :=
  first
    [ apply keeps_ret | apply keeps_throw | apply keeps_get
    | apply keeps_get_opt | apply keeps_own_properties
    | apply keeps_has_property | apply keeps_first_element
    | apply keeps_gt_zero | apply keeps_lift_codec | apply keeps_decode
    | apply keeps_looks_raw | apply keeps_new_object | apply keeps_new_array
    | apply keeps_alloc | apply keeps_or_empty_array
    | apply keeps_array_map; intros; keeps_prim
    | apply keeps_delete_property; eapply is_new_ref; eassumption
    | apply keeps_set_property; eapply is_new_ref; eassumption ].

Ltac keeps_go :=
  repeat
    (lazymatch goal with
     | |- keeps _ (_ ≫= _) _ =>
         apply keeps_bind;
         [| let E := fresh "E" in
            intros ? ? ? E ?;
            try (apply new_object_inr in E as [? ?]) ]
     | |- keeps _ (if ?b then _ else _) _ => destruct b
     | |- keeps _ (match ?v with _ => _ end) _ => destruct v
     | |- _ => keeps_prim
     end).

Section ParserFrames.
Context {ext : Type} `{!Codec ext} `{!ShapeGuard ext}.

Implicit Types (h : heap ext) (v x : value ext) (l : loc) (k : string).
Implicit Types (m : gmap string (value ext)) (xs ys : list (value ext)).

Lemma keeps_parseTransactionInfo n raw h : keeps n (parseTransactionInfo raw) h.
Proof. unfold parseTransactionInfo. keeps_go. Qed.

Lemma keeps_parseRawTransactions n r h : keeps n (parseRawTransactions r) h.
Proof.
  unfold parseRawTransactions. keeps_go. apply keeps_parseTransactionInfo.
Qed.

Lemma keeps_parseEvent n evt h : keeps n (parseEvent evt) h.
Proof. unfold parseEvent. keeps_go. Qed.

Lemma keeps_parseRawEvents n r h : keeps n (parseRawEvents r) h.
Proof.
  unfold parseRawEvents. keeps_go.
  apply keeps_array_map. intros. apply keeps_parseEvent.
Qed.

Lemma keeps_parseLedgerEntry n e h : keeps n (parseLedgerEntry e) h.
Proof. unfold parseLedgerEntry. keeps_go. Qed.

Lemma keeps_parseRawLedgerEntries n r h : keeps n (parseRawLedgerEntries r) h.
Proof.
  unfold parseRawLedgerEntries. keeps_go.
  apply keeps_array_map. intros. apply keeps_parseLedgerEntry.
Qed.

Lemma keeps_parseResultRow n row h : keeps n (parseResultRow row) h.
Proof. unfold parseResultRow. keeps_go. Qed.

Lemma keeps_parseSnapshot n e k h : keeps n (parseSnapshot e k) h.
Proof. unfold parseSnapshot. keeps_go. Qed.

Lemma keeps_parseStateChange n e h : keeps n (parseStateChange e) h.
Proof.
  unfold parseStateChange. keeps_go; apply keeps_parseSnapshot.
Qed.

Lemma keeps_length_or_false n sim k h : keeps n (length_or_false sim k) h.
Proof. unfold length_or_false. keeps_go. Qed.

Lemma keeps_parseSuccessful n sim partial h :
  keeps n (parseSuccessful sim partial) h.
Proof.
  unfold parseSuccessful. keeps_go; try apply keeps_length_or_false.
  - apply keeps_array_map. intros. apply keeps_parseResultRow.
  - apply keeps_array_map. intros. apply keeps_parseStateChange.
Qed.

Lemma keeps_parseRawSimulation n sim h : keeps n (parseRawSimulation sim) h.
Proof.
  unfold parseRawSimulation. keeps_go. apply keeps_parseSuccessful.
Qed.
End ParserFrames.

Section Arrays.
Context {ext : Type} `{!Codec ext} `{!ShapeGuard ext}.

Implicit Types (h : heap ext) (v x : value ext) (l : loc) (k : string).
Implicit Types (m : gmap string (value ext)) (xs ys : list (value ext)).

Lemma prefix_lookup h h' l (o : obj ext) :
  h `prefix_of` h' → h !! l = Some o → h' !! l = Some o.
Proof. intros [t ->] E. by apply lookup_app_l_Some. Qed.

Lemma is_object_mono h h' v m :
  h `prefix_of` h' → is_object h v m → is_object h' v m.
Proof. intros Hp (l & -> & E). exists l. eauto using prefix_lookup. Qed.

Lemma is_array_mono h h' v xs :
  h `prefix_of` h' → is_array h v xs → is_array h' v xs.
Proof. intros Hp (l & -> & E). exists l. eauto using prefix_lookup. Qed.

Lemma is_object_inj h v m m' : is_object h v m → is_object h v m' → m = m'.
Proof. intros (l & -> & E) (l' & [= <-] & E'). congruence. Qed.

Lemma is_array_inj h v xs xs' : is_array h v xs → is_array h v xs' → xs = xs'.
Proof. intros (l & -> & E) (l' & [= <-] & E'). congruence. Qed.

Lemma get_object h v m k :
  is_object h v m → get v k h = (inr (field m k), h).
Proof. intros (l & -> & E). by apply get_plain. Qed.

Lemma own_properties_object h v m :
  is_object h v m → own_properties v h = (inr m, h).
Proof. intros (l & -> & E). by apply own_properties_plain. Qed.

Lemma run_prefix {A} (c : M A) h r h' :
  (∀ n h0, keeps n c h0) → c h = (r, h') → h `prefix_of` h'.
Proof.
  intros Hk E. pose proof (keeps_prefix c h (Hk _ _)) as Hp. by rewrite E in Hp.
Qed.

(** A successful [mapM]: every element was mapped, in a store between the
    first and the last one. *)
Lemma mapM_inr {A B} (f : A → M B) (zs : list A) h bs h' :
  (∀ z n h0, keeps n (f z) h0) →
  mapM f zs h = (inr bs, h') →
  h `prefix_of` h' ∧
  Forall2 (λ z b, ∃ h0 h1, h `prefix_of` h0 ∧ h1 `prefix_of` h' ∧
                           f z h0 = (inr b, h1)) zs bs.
Proof.
  intros Hk. revert h bs h'. induction zs as [|z zs IH]; intros h bs h' E.
  - inversion E; subst. split; [done|constructor].
  - cbn [mapM] in E.
    apply bind_inr in E as (b & h1 & E1 & E).
    apply bind_inr in E as (bs' & h2 & E2 & E). inversion E; subst.
    pose proof (run_prefix _ _ _ _ (Hk z) E1) as P1.
    apply IH in E2 as [P2 F]. split; [by etrans|].
    constructor.
    + exists h, h1. eauto.
    + eapply Forall2_impl; [exact F|].
      intros z' b' (h0 & h3 & P0 & P3 & E'). exists h0, h3.
      split; [by etrans|]. eauto.
Qed.

Lemma array_map_inr (f : value ext → M (value ext)) v h y h' :
  array_map f v h = (inr y, h') →
  ∃ xs ys h1, is_array h v xs ∧ mapM f xs h = (inr ys, h1) ∧
              y = VRef (length h1) ∧ h' = h1 ++ [OArray ys].
Proof.
  unfold array_map. intros E.
  destruct v as [| |b|n|s|e|l]; try discriminate.
  destruct (h !! l) as [[m|xs]|] eqn:El; try discriminate.
  apply bind_inr in E as (ys & h1 & E1 & E). inversion E; subst.
  exists xs, ys, h1. repeat split; try done. by exists l.
Qed.

Lemma array_map_array (f : value ext → M (value ext)) v xs h :
  is_array h v xs → array_map f v h = (ys ← mapM f xs; new_array ys) h.
Proof. intros (l & -> & E). unfold array_map. by rewrite E. Qed.

Lemma is_array_new h xs : is_array (h ++ [OArray xs]) (VRef (length h)) xs.
Proof. exists (length h). split; [done|apply lookup_alloc_new]. Qed.

Lemma is_object_new h m : is_object (h ++ [OPlain m]) (VRef (length h)) m.
Proof. exists (length h). split; [done|apply lookup_alloc_new]. Qed.

Lemma or_empty_array_inr v h y h' :
  or_empty_array v h = (inr y, h') →
  (nullish v = true ∧ y = VRef (length h) ∧ h' = h ++ [OArray []]) ∨
  (nullish v = false ∧ y = v ∧ h' = h).
Proof.
  unfold or_empty_array. destruct (nullish v); inversion 1; subst; auto.
Qed.

(** [mapM] returns when its callback does on every element. *)
Lemma mapM_returns {A B} (f : A → M B) (zs : list A) h :
  (∀ z n h0, keeps n (f z) h0) →
  Forall (λ z, ∀ h0, h `prefix_of` h0 → ∃ b h1, f z h0 = (inr b, h1)) zs →
  ∃ bs h1, mapM f zs h = (inr bs, h1).
Proof.
  intros Hk. revert h. induction zs as [|z zs IH]; intros h Hzs.
  - by exists [], h.
  - apply Forall_cons in Hzs as [Hz Hzs].
    destruct (Hz h (reflexivity _)) as (b & h1 & E).
    pose proof (run_prefix _ _ _ _ (Hk z) E) as P.
    destruct (IH h1) as (bs & h2 & E2).
    { eapply Forall_impl; [exact Hzs|]. cbn. intros z' Hz' h0 P0.
      apply Hz'. by etrans. }
    exists (b :: bs), h2. cbn [mapM].
    by rewrite (bind_ok _ _ _ _ _ E), (bind_ok _ _ _ _ _ E2).
Qed.

Lemma mapM_decode_returns kd xs h :
  all_decode kd xs → ∃ ys, mapM (decode kd) xs h = (inr ys, h).
Proof.
  induction 1 as [|x xs [e He] _ [ys IH]]; [by exists []|].
  exists (VExt e :: ys). cbn [mapM].
  rewrite (bind_ok _ _ _ _ _ (decode_ok _ _ _ _ He)).
  by rewrite (bind_ok _ _ _ _ _ IH).
Qed.
End Arrays.

Section Events.
Context {ext : Type} `{!Codec ext} `{!ShapeGuard ext}.

Implicit Types (h : heap ext) (v x : value ext) (l : loc) (k : string).
Implicit Types (m : gmap string (value ext)) (xs ys : list (value ext)).

Lemma is_empty_string_spec v : is_empty_string v = true ↔ v = VStr "".
Proof.
  destruct v as [| |b|n|s|e|l]; cbn; try (split; [discriminate|by inversion 1]).
  split.
  - intros E. apply String.eqb_eq in E. by subst.
  - intros [= ->]. done.
Qed.

Lemma is_array_alloc_inv h (o : obj ext) v xs :
  (∀ ys, o ≠ OArray ys) → is_array (h ++ [o]) v xs → is_array h v xs.
Proof.
  intros Ho (l & -> & E). exists l. split; [done|].
  destruct (decide (l < length h)%nat) as [Hlt|Hge].
  - by rewrite lookup_app_l in E.
  - rewrite lookup_app_r in E by lia.
    destruct (l - length h)%nat; cbn in E; [|done].
    inversion E; subst. by destruct (Ho xs).
Qed.

Lemma delete_new h (o : obj ext) m k :
  delete_property (VRef (length h)) k (h ++ [OPlain m]) =
  (inr tt, h ++ [OPlain (delete k m)]).
Proof.
  rewrite (delete_property_plain _ _ m) by apply lookup_alloc_new.
  f_equal. replace (length h) with (length h + 0)%nat by lia.
  by rewrite insert_app_r.
Qed.



End Events.

Section AbsentLists.
Context {ext : Type} `{!Codec ext} `{!ShapeGuard ext}.

Implicit Types (h : heap ext) (v x : value ext) (l : loc) (k : string).
Implicit Types (m : gmap string (value ext)) (xs ys : list (value ext)).

(** Mapping over [v ?? []] when [v] is undefined or null. *)
Lemma map_absent_list (f : value ext → M (value ext)) v h :
  nullish v = true →
  (list ← or_empty_array v; array_map f list) h =
  (inr (VRef (S (length h))), h ++ [OArray []; OArray []]).
Proof.
  intros Hn. unfold or_empty_array. rewrite Hn.
  rewrite (bind_ok _ _ _ (VRef (length h)) (h ++ [OArray []])) by done.
  rewrite (array_map_array f _ [] _ (is_array_new h [])).
  cbn [mapM]. rewrite (bind_ok _ _ _ [] (h ++ [OArray []])) by done.
  unfold new_array, alloc. rewrite length_app, <- (assoc_L (++)). cbn.
  by replace (length h + 1)%nat with (S (length h)) by lia.
Qed.

Lemma absent_list_output h (latest : value ext) k :
  let mo : gmap string (value ext) :=
    <["latestLedger" := latest]> {[ k := VRef (S (length h)) ]} in
  k ≠ "latestLedger" →
  is_object ((h ++ [OArray []; OArray []]) ++ [OPlain mo])
    (VRef (length (h ++ [OArray []; OArray []]))) mo ∧
  is_array ((h ++ [OArray []; OArray []]) ++ [OPlain mo]) (field mo k) [].
Proof.
  intros mo Hk. split; [apply is_object_new|].
  unfold field, mo. rewrite lookup_insert_ne, lookup_singleton_eq by done. cbn.
  exists (S (length h)). split; [done|].
  rewrite <- (assoc_L (++)).
  rewrite lookup_app_r by lia.
  by replace (S (length h) - length h)%nat with 1%nat by lia.
Qed.

(** C10.  On a response object whose [events] (respectively [entries]) is
    absent, or null, [parseRawEvents] (respectively
    [parseRawLedgerEntries]) returns: the output is a new object whose
    [events] (respectively [entries]) is an empty array. *)
Theorem absent_list_parses_to_empty h r m :
  is_object h r m →
  (nullish (field m "events") = true →
   ∃ out h' mo,
     parseRawEvents r h = (inr out, h') ∧
     is_object h' out mo ∧ is_array h' (field mo "events") []) ∧
  (nullish (field m "entries") = true →
   ∃ out h' mo,
     parseRawLedgerEntries r h = (inr out, h') ∧
     is_object h' out mo ∧ is_array h' (field mo "entries") []).
Proof.
  intros Ho. split; intros Hn.
  - unfold parseRawEvents.
    rewrite (bind_ok _ _ _ _ _ (get_object _ _ _ _ Ho)).
    rewrite (bind_ok _ _ _ _ _ (get_object _ _ _ _ Ho)).
    rewrite bind_unfold.
    pose proof (map_absent_list parseEvent _ h Hn) as E.
    rewrite bind_unfold in E.
    destruct (or_empty_array (field m "events") h) as [[e|a] h1]; [done|].
    rewrite bind_unfold, E.
    eexists _, _, _. split; [reflexivity|].
    by apply absent_list_output.
  - unfold parseRawLedgerEntries.
    rewrite (bind_ok _ _ _ _ _ (get_object _ _ _ _ Ho)).
    rewrite (bind_ok _ _ _ _ _ (get_object _ _ _ _ Ho)).
    rewrite bind_unfold.
    pose proof (map_absent_list parseLedgerEntry _ h Hn) as E.
    rewrite bind_unfold in E.
    destruct (or_empty_array (field m "entries") h) as [[e|a] h1]; [done|].
    rewrite bind_unfold, E.
    eexists _, _, _. split; [reflexivity|].
    by apply absent_list_output.
Qed.
End AbsentLists.

Section LedgerEntries.
Context {ext : Type} `{!Codec ext} `{!ShapeGuard ext}.

Implicit Types (h : heap ext) (v x : value ext) (l : loc) (k : string).
Implicit Types (m : gmap string (value ext)) (xs ys : list (value ext)).

Lemma parseLedgerEntry_malformed h e me :
  is_object h e me →
  truthy (field me "key") && truthy (field me "xdr") = false →
  parseLedgerEntry e h = (inl (InvalidLedgerEntry e), h).
Proof.
  intros Ho Hf. unfold parseLedgerEntry.
  rewrite (bind_ok _ _ _ _ _ (get_object _ _ _ _ Ho)).
  destruct (truthy (field me "key")).
  - rewrite (bind_ok _ _ _ true h); [done|].
    rewrite (bind_ok _ _ _ _ _ (get_object _ _ _ _ Ho)).
    cbn in Hf. by rewrite Hf.
  - by rewrite (bind_ok _ _ _ true h).
Qed.

Lemma parseLedgerEntry_decodes h h0 e :
  h `prefix_of` h0 → entry_decodes h e →
  ∃ y h1, parseLedgerEntry e h0 = (inr y, h1).
Proof.
  intros P (me & Ho & Tk & Tx & [dk Hk] & [dx Hx]).
  apply (is_object_mono _ _ _ _ P) in Ho.
  unfold parseLedgerEntry.
  rewrite (bind_ok _ _ _ _ _ (get_object _ _ _ _ Ho)). rewrite Tk.
  rewrite (bind_ok _ _ _ false h0); last first.
  { rewrite (bind_ok _ _ _ _ _ (get_object _ _ _ _ Ho)). by rewrite Tx. }
  rewrite (bind_ok _ _ _ _ _ (get_object _ _ _ _ Ho)).
  rewrite (bind_ok _ _ _ _ _ (get_object _ _ _ _ Ho)).
  rewrite (bind_ok _ _ _ _ _ (decode_ok _ _ _ _ Hk)).
  rewrite (bind_ok _ _ _ _ _ (get_object _ _ _ _ Ho)).
  rewrite (bind_ok _ _ _ _ _ (decode_ok _ _ _ _ Hx)).
  rewrite (bind_ok _ _ _ _ _ (get_object _ _ _ _ Ho)).
  destruct (field me "liveUntilLedgerSeq") eqn:El.
  1: rewrite (bind_ok _ _ _ ∅ h0) by done; eauto.
  all: erewrite bind_ok;
    [|rewrite (bind_ok _ _ _ _ _ (get_object _ _ _ _ Ho)); reflexivity];
    eauto.
Qed.

(** [mapM] fails as soon as it meets an element on which the callback
    fails in every later store. *)
Lemma mapM_fails {A B} (f : A → M B) (zs : list A) z h :
  (∀ z' n h0, keeps n (f z') h0) →
  z ∈ zs →
  (∀ h0, h `prefix_of` h0 → ∃ e h1, f z h0 = (inl e, h1)) →
  ∃ e h1, mapM f zs h = (inl e, h1).
Proof.
  intros Hk Hin. revert h. induction zs as [|z0 zs IH]; intros h Hz.
  { by apply elem_of_nil in Hin. }
  cbn [mapM]. rewrite bind_unfold.
  destruct (f z0 h) as [[e|b] h1] eqn:E; [eauto|].
  apply elem_of_cons in Hin as [->|Hin].
  { destruct (Hz h (reflexivity _)) as (e & h2 & E'). congruence. }
  pose proof (run_prefix _ _ _ _ (Hk z0) E) as P.
  destruct (IH Hin h1) as (e & h2 & E2).
  { intros h0 P0. apply Hz. by etrans. }
  rewrite bind_unfold, E2. eauto.
Qed.

Lemma mapM_throws_first {A B} (f : A → M B) (pre post : list A) z e h :
  (∀ z' n h0, keeps n (f z') h0) →
  Forall (λ z', ∀ h0, h `prefix_of` h0 → ∃ b h1, f z' h0 = (inr b, h1)) pre →
  (∀ h0, h `prefix_of` h0 → f z h0 = (inl e, h0)) →
  ∃ h1, mapM f (pre ++ z :: post) h = (inl e, h1).
Proof.
  intros Hk Hpre. revert h Hpre.
  induction pre as [|z0 pre IH]; intros h Hpre Hz.
  - cbn [app mapM]. rewrite bind_unfold, (Hz h) by done. eauto.
  - apply Forall_cons in Hpre as [H0 Hpre].
    destruct (H0 h (reflexivity _)) as (b & h1 & E).
    pose proof (run_prefix _ _ _ _ (Hk z0) E) as P.
    cbn [app mapM]. rewrite bind_unfold, E.
    destruct (IH h1) as (h2 & E2).
    + eapply Forall_impl; [exact Hpre|]. cbn. intros z' Hz' h0 P0.
      apply Hz'. by etrans.
    + intros h0 P0. apply Hz. by etrans.
    + rewrite bind_unfold, E2. eauto.
Qed.

Lemma parseRawLedgerEntries_array h raw m es :
  is_object h raw m →
  is_array h (field m "entries") es →
  parseRawLedgerEntries raw h =
  (parsed ← (ys ← mapM parseLedgerEntry es; new_array ys);
   new_object (<["latestLedger" := field m "latestLedger"]>
                 {[ "entries" := parsed ]})) h.
Proof.
  intros Ho Ha. unfold parseRawLedgerEntries.
  rewrite (bind_ok _ _ _ _ _ (get_object _ _ _ _ Ho)).
  rewrite (bind_ok _ _ _ _ _ (get_object _ _ _ _ Ho)).
  assert (nullish (field m "entries") = false) as Hn.
  { destruct Ha as (l & -> & _). done. }
  unfold or_empty_array. rewrite Hn.
  rewrite (bind_ok _ _ _ (field m "entries") h) by done.
  rewrite !bind_unfold. by rewrite (array_map_array _ _ _ _ Ha).
Qed.

(** C5, as the code has it.  A raw ledger-entries response with an entry
    whose [key] or [xdr] is missing (or falsy) makes the call fail, so
    nothing is returned; and when every entry before that one has its key
    and its xdr and both decode, the failure is the malformed-entry error
    carrying that raw entry. *)
Theorem parseRawLedgerEntries_malformed h raw m es i e me :
  is_object h raw m →
  is_array h (field m "entries") es →
  es !! i = Some e →
  is_object h e me →
  truthy (field me "key") && truthy (field me "xdr") = false →
  (∃ err h', parseRawLedgerEntries raw h = (inl err, h')) ∧
  (Forall (entry_decodes h) (take i es) →
   ∃ h', parseRawLedgerEntries raw h = (inl (InvalidLedgerEntry e), h')).
Proof.
  intros Ho Ha Hi He Hf.
  rewrite (parseRawLedgerEntries_array _ _ _ _ Ho Ha).
  assert (∀ h0, h `prefix_of` h0 →
                parseLedgerEntry e h0 = (inl (InvalidLedgerEntry e), h0)) as Hz.
  { intros h0 P. eapply parseLedgerEntry_malformed; [|exact Hf].
    by eapply is_object_mono. }
  split.
  - destruct (mapM_fails parseLedgerEntry es e h) as (err & h1 & E).
    + intros. apply keeps_parseLedgerEntry.
    + by eapply list_elem_of_lookup_2.
    + intros h0 P. rewrite (Hz h0 P). eauto.
    + exists err, h1. by rewrite !bind_unfold, E.
  - intros Hpre.
    rewrite <- (take_drop_middle es i e Hi).
    destruct (mapM_throws_first parseLedgerEntry (take i es) (drop (S i) es)
                e (InvalidLedgerEntry e) h) as (h1 & E).
    + intros. apply keeps_parseLedgerEntry.
    + eapply Forall_impl; [exact Hpre|]. cbn. intros z' Hz' h0 P.
      by eapply parseLedgerEntry_decodes.
    + exact Hz.
    + exists h1. by rewrite !bind_unfold, E.
Qed.
End LedgerEntries.

(** C5 as stated fails when an entry before the malformed one does not
    decode: the call then fails with the decode failure of that entry, not
    with the malformed-entry error. *)
Lemma ledger_entries_decode_failure_first :
  is_object Sample.ledger_heap (VRef 3%nat) Sample.ledger_props ∧
  is_array Sample.ledger_heap (field Sample.ledger_props "entries")
    [VRef 0%nat; VRef 1%nat] ∧
  is_object Sample.ledger_heap (VRef 1%nat) Sample.entry_malformed ∧
  Sample.entry_malformed !! "key" = None ∧
  parseRawLedgerEntries (VRef 3%nat) Sample.ledger_heap =
    (inl (CodecError (Some LedgerKey) (VStr "!")), Sample.ledger_heap).
Proof.
  repeat split; try (eexists; split; reflexivity).
Qed.
Section TransactionInfo.
Context {ext : Type} `{!Codec ext} `{!ShapeGuard ext}.

Implicit Types (h : heap ext) (v x : value ext) (l : loc) (k : string).
Implicit Types (m : gmap string (value ext)) (xs ys : list (value ext)).

Lemma has_property_heap k v h r h' : has_property k v h = (r, h') → h' = h.
Proof.
  unfold has_property. intros E.
  destruct v as [| |b|n|s|e|l]; try (by inversion E).
  destruct (h !! l) as [[m|xs]|]; try (by inversion E).
  destruct (String.eqb k "length"); by inversion E.
Qed.

Lemma set_property_plain h l m k x :
  h !! l = Some (OPlain m) →
  set_property (VRef l) k x h = (inr tt, <[l := OPlain (<[k := x]> m)]> h).
Proof. intros E. unfold set_property. by rewrite E. Qed.

Lemma set_new h m k x :
  set_property (VRef (length h)) k x (h ++ [OPlain m]) =
  (inr tt, h ++ [OPlain (<[k := x]> m)]).
Proof.
  rewrite (set_property_plain _ _ m) by apply lookup_alloc_new.
  f_equal. replace (length h) with (length h + 0)%nat by lia.
  by rewrite insert_app_r.
Qed.

(** The return value [parseTransactionInfo] finds in a decoded meta. *)
Lemma return_value_block (meta : ext) info_props h h1 :
  (if (meta_switch meta =? 3)%Z then
     rec3 ← lift_codec None (VExt meta) (meta_v3 meta);
     match v3_sorobanMeta rec3 with
     | IsNull => mret tt
     | IsUndefined | Present _ =>
         rec3' ← lift_codec None (VExt meta) (meta_v3 meta);
         set_property (VRef (length h)) "returnValue"
           (call_returnValue (v3_sorobanMeta rec3'))
     end
   else mret tt) (h ++ [OPlain info_props]) = (inr tt, h1) →
  (h1 = h ++ [OPlain info_props] ∧
   ¬ (meta_switch meta = 3%Z ∧
      ∃ rec3, meta_v3 meta = Some rec3 ∧ v3_sorobanMeta rec3 ≠ IsNull)) ∨
  (∃ rec3, meta_switch meta = 3%Z ∧ meta_v3 meta = Some rec3 ∧
           v3_sorobanMeta rec3 ≠ IsNull ∧
           h1 = h ++ [OPlain (<["returnValue" :=
                                 call_returnValue (v3_sorobanMeta rec3)]>
                                info_props)]).
Proof.
  intros E. destruct (meta_switch meta =? 3)%Z eqn:Es.
  - apply Z.eqb_eq in Es.
    apply bind_inr in E as (rec3 & h2 & E1 & E).
    apply lift_codec_inr in E1 as [E1 ->].
    destruct (v3_sorobanMeta rec3) as [| |sm] eqn:Esm.
    + left. inversion E; subst. split; [done|].
      intros (_ & rec3' & E3 & Esm'). congruence.
    + right. apply bind_inr in E as (rec3' & h2 & E2 & E).
      apply lift_codec_inr in E2 as [E2 ->].
      assert (rec3' = rec3) as -> by congruence. rewrite Esm, set_new in E.
      inversion E; subst. exists rec3. by rewrite Esm.
    + right. apply bind_inr in E as (rec3' & h2 & E2 & E).
      apply lift_codec_inr in E2 as [E2 ->].
      assert (rec3' = rec3) as -> by congruence. rewrite Esm, set_new in E.
      inversion E; subst. exists rec3. by rewrite Esm.
  - left. inversion E; subst. split; [done|].
    intros (Hs & _). apply Z.eqb_neq in Es. done.
Qed.

(** The optional diagnostic events only add [diagnosticEventsXdr]. *)
Lemma diagnostic_block raw h mi h1 h' (info : value ext) :
  h1 !! length h = Some (OPlain mi) →
  (present ← has_property "diagnosticEventsXdr" raw;
   events ← (if (present : bool) then get raw "diagnosticEventsXdr"
             else mret (VBool false));
   (if truthy events then
      events' ← get raw "diagnosticEventsXdr";
      decoded ← array_map (decode DiagnosticEvent) events';
      set_property (VRef (length h)) "diagnosticEventsXdr" decoded
    else mret tt);;
   mret (VRef (length h) : value ext)) h1 = (inr info, h') →
  info = VRef (length h) ∧
  ∃ mi', h' !! length h = Some (OPlain mi') ∧
         mi' !! "returnValue" = mi !! "returnValue".
Proof.
  intros Hi E.
  apply bind_inr in E as (present & h2 & E1 & E).
  apply has_property_heap in E1 as ->.
  apply bind_inr in E as (events & h2 & E1 & E).
  assert (h2 = h1) as ->.
  { destruct present; [by apply get_heap in E1|by inversion E1]. }
  apply bind_inr in E as ([] & h2 & E & E').
  inversion E'; subst info h2; clear E'. split; [done|].
  destruct (truthy events).
  - apply bind_inr in E as (events' & h2 & E2 & E).
    apply get_heap in E2 as ->.
    apply bind_inr in E as (decoded & h2 & E2 & E).
    apply array_map_decode_inr in E2 as (ts & ts' & _ & -> & -> & _).
    rewrite (set_property_plain _ _ mi) in E by (by apply lookup_alloc_old).
    inversion E; subst. eexists. split.
    + apply list_lookup_insert_eq. rewrite length_app.
      apply lookup_lt_Some in Hi. lia.
    + by rewrite lookup_insert_ne.
  - inversion E; subst. eauto.
Qed.

(** What [parseTransactionInfo] does about [returnValue].  When it returns,
    the result metadata decoded and the output is an object.  It has a
    [returnValue] exactly when the decoded metadata is on arm 3 and the
    accessor of the invocation metadata answers something else than [null];
    the [returnValue] is then the return value of the invocation metadata the
    accessor answers, and [undefined] when it answers [undefined]. *)
Lemma parseTransactionInfo_returnValue_set h raw info h' :
  parseTransactionInfo raw h = (inr info, h') →
  ∃ rm meta mi,
    get raw "resultMetaXdr" h = (inr rm, h) ∧
    fromXDR TransactionMeta rm = Some meta ∧
    is_object h' info mi ∧
    (is_Some (mi !! "returnValue") ↔
     meta_switch meta = 3%Z ∧
     ∃ rec3, meta_v3 meta = Some rec3 ∧ v3_sorobanMeta rec3 ≠ IsNull) ∧
    (∀ rec3 sm, meta_switch meta = 3%Z → meta_v3 meta = Some rec3 →
                v3_sorobanMeta rec3 = Present sm →
                mi !! "returnValue" = Some (VExt (sorobanMeta_returnValue sm))) ∧
    (∀ rec3, meta_switch meta = 3%Z → meta_v3 meta = Some rec3 →
             v3_sorobanMeta rec3 = IsUndefined →
             mi !! "returnValue" = Some VUndef).
Proof.
  intros E. unfold parseTransactionInfo in E.
  apply bind_inr in E as (rm & h1 & Erm & E).
  pose proof (get_heap _ _ _ _ _ Erm) as ->.
  apply bind_inr in E as (meta & h1 & E1 & E).
  apply lift_codec_inr in E1 as [Hmeta ->].
  apply bind_inr in E as (ledger & h1 & E1 & E). apply get_heap in E1 as ->.
  apply bind_inr in E as (createdAt & h1 & E1 & E). apply get_heap in E1 as ->.
  apply bind_inr in E as (applicationOrder & h1 & E1 & E). apply get_heap in E1 as ->.
  apply bind_inr in E as (feeBump & h1 & E1 & E). apply get_heap in E1 as ->.
  apply bind_inr in E as (envelopeXdr & h1 & E1 & E). apply get_heap in E1 as ->.
  apply bind_inr in E as (envelope & h1 & E1 & E).
  apply decode_inr in E1 as (? & _ & _ & ->).
  apply bind_inr in E as (resultXdr & h1 & E1 & E). apply get_heap in E1 as ->.
  apply bind_inr in E as (result & h1 & E1 & E).
  apply decode_inr in E1 as (? & _ & _ & ->).
  apply bind_inr in E as (info0 & h1 & E1 & E).
  apply new_object_inr in E1 as [-> ->].
  apply bind_inr in E as ([] & h2 & E1 & E2).
  exists rm, meta.
  match type of E1 with
  | _ (_ ++ [OPlain ?p]) = _ => set (m0 := p) in *
  end.
  assert (m0 !! "returnValue" = None) as Hm0.
  { unfold m0. by rewrite !lookup_insert_ne, lookup_singleton_ne. }
  apply return_value_block in E1
    as [(-> & Hno)|(rec3 & Hs & Hv3 & Hsm & ->)].
  - apply diagnostic_block with (mi := m0) in E2 as (-> & mi' & Hi & Hrv);
      [|apply lookup_alloc_new].
    exists mi'. split; [done|]. split; [done|].
    split; [by exists (length h)|]. rewrite Hrv, Hm0. split; [|split].
    + split; [by intros [? ?]|done].
    + intros rec3 sm ? ? Hp. destruct Hno. split; [done|].
      exists rec3. split; [done|]. by rewrite Hp.
    + intros rec3 ? ? Hu. destruct Hno. split; [done|].
      exists rec3. split; [done|]. by rewrite Hu.
  - eapply diagnostic_block in E2 as (-> & mi' & Hi & Hrv);
      [|apply lookup_alloc_new].
    exists mi'. split; [done|]. split; [done|].
    split; [by exists (length h)|].
    rewrite Hrv, lookup_insert_eq. split; [|split].
    + split; [eauto|]. intros _. eauto.
    + intros rec3' sm' _ Hv3' Hsm'.
      assert (rec3' = rec3) as -> by congruence. by rewrite Hsm'.
    + intros rec3' _ Hv3' Hsm'.
      assert (rec3' = rec3) as -> by congruence. by rewrite Hsm'.
Qed.
End TransactionInfo.

(** C7 fails on a transaction whose result metadata is on arm 3 and has no
    invocation metadata set, as is that of a transaction that invokes no
    contract: the accessor then answers [undefined], which is not [null], and
    the output gets a [returnValue] property that holds [undefined].  Only
    when the accessor answers [null] is the property left out. *)
Theorem parseTransactionInfo_returnValue_undefined :
  (fromXDR TransactionMeta
     (field Sample.transaction_classic_props "resultMetaXdr") =
     Some (Sample.Decoded TransactionMeta "v3") ∧
   meta_switch (Sample.Decoded TransactionMeta "v3") = 3%Z ∧
   meta_v3 (Sample.Decoded TransactionMeta "v3") = Some (Sample.MetaV3 "v3") ∧
   v3_sorobanMeta (Sample.MetaV3 "v3") = IsUndefined) ∧
  (parseTransactionInfo (VRef 0%nat) Sample.transaction_classic_heap).1 =
    inr (VRef 1%nat) ∧
  (∃ mi,
     (parseTransactionInfo (VRef 0%nat) Sample.transaction_classic_heap).2
       !! 1%nat = Some (OPlain mi) ∧
     mi !! "returnValue" = Some VUndef) ∧
  v3_sorobanMeta (Sample.MetaV3 "v3null") = IsNull ∧
  (parseTransactionInfo (VRef 0%nat) Sample.transaction_null_heap).1 =
    inr (VRef 1%nat) ∧
  (∃ mi,
     (parseTransactionInfo (VRef 0%nat) Sample.transaction_null_heap).2
       !! 1%nat = Some (OPlain mi) ∧
     mi !! "returnValue" = None).
Proof.
  split; [repeat split|]. split; [vm_compute; reflexivity|].
  split; [eexists; split; [vm_compute; reflexivity|reflexivity]|].
  split; [reflexivity|]. split; [vm_compute; reflexivity|].
  eexists; split; [vm_compute; reflexivity|reflexivity].
Qed.

Section SimulationBlocks.
Context {ext : Type} `{!Codec ext} `{!ShapeGuard ext}.

Implicit Types (h : heap ext) (v x : value ext) (l : loc) (k : string).
Implicit Types (m : gmap string (value ext)) (xs ys : list (value ext)).

Lemma parseResultRow_inr h0 row mrow r h1 :
  is_object h0 row mrow →
  parseResultRow row h0 = (inr r, h1) →
  ∃ mr auths,
    is_object h1 r mr ∧
    is_array h1 (field mr "auth") auths ∧
    (nullish (field mrow "auth") = true → auths = []) ∧
    (∀ entries, is_array h0 (field mrow "auth") entries →
                Forall2 (decodes SorobanAuthorizationEntry) entries auths) ∧
    (if truthy (field mrow "xdr")
     then decodes ScVal (field mrow "xdr") (field mr "retval")
     else mr !! "retval" = Some (VExt scvVoid)).
Proof.
  intros Ho E. unfold parseResultRow in E.
  rewrite (bind_ok _ _ _ _ _ (get_object _ _ _ _ Ho)) in E.
  apply bind_inr in E as (list & h2 & E1 & E).
  assert (h0 `prefix_of` h2) as P2.
  { eapply run_prefix; [|exact E1]. intros. apply keeps_or_empty_array. }
  apply bind_inr in E as (entries & h3 & E2 & E).
  apply array_map_decode_inr in E2 as (raws & auths & Ha & -> & -> & F).
  assert (h2 `prefix_of` h2 ++ [OArray auths]) as P3 by (by eexists).
  assert (is_object (h2 ++ [OArray auths]) row mrow) as Ho3.
  { eapply is_object_mono; [|exact Ho]. by etrans. }
  rewrite (bind_ok _ _ _ _ _ (get_object _ _ _ _ Ho3)) in E.
  apply bind_inr in E as (retval & h4 & E3 & E).
  apply new_object_inr in E as [-> ->].
  assert (h4 = h2 ++ [OArray auths] ∧
          if truthy (field mrow "xdr")
          then decodes ScVal (field mrow "xdr") retval
          else retval = VExt scvVoid) as [-> Hr].
  { destruct (truthy (field mrow "xdr")).
    - rewrite (bind_ok _ _ _ _ _ (get_object _ _ _ _ Ho3)) in E3.
      apply decode_inr in E3 as (e & He & -> & ->). split; [done|by exists e].
    - by inversion E3. }
  eexists _, auths. split; [apply is_object_new|].
  split.
  { unfold field. rewrite lookup_insert_eq. cbn.
    eapply is_array_mono; [|apply is_array_new]. by eexists. }
  split.
  { intros Hn. apply or_empty_array_inr in E1 as [(_ & -> & ->)|(Hn' & _)];
      [|congruence].
    pose proof (is_array_inj _ _ _ _ Ha (is_array_new h0 [])) as ->.
    by inversion F. }
  split.
  { intros entries0 Ha0.
    apply or_empty_array_inr in E1 as [(Hn & _)|(_ & -> & ->)].
    - destruct Ha0 as (l & Hl & _). rewrite Hl in Hn. discriminate.
    - by rewrite (is_array_inj _ _ _ _ Ha0 Ha). }
  destruct (truthy (field mrow "xdr")).
  - unfold field at 2.
    by rewrite lookup_insert_ne, lookup_singleton_eq by done.
  - by rewrite lookup_insert_ne, lookup_singleton_eq, Hr by done.
Qed.

Lemma parseResultRow_parsed h h0 h1 h' row r :
  h `prefix_of` h0 → h1 `prefix_of` h' →
  parseResultRow row h0 = (inr r, h1) →
  result_parsed h h' row r.
Proof.
  intros P0 P1 E mrow Ho.
  destruct (parseResultRow_inr _ _ _ _ _ (is_object_mono _ _ _ _ P0 Ho) E)
    as (mr & auths & Hmr & Ha & Hn & Hd & Hr).
  exists mr, auths. split; [by eapply is_object_mono|].
  split; [by eapply is_array_mono|]. split; [done|]. split; [|done].
  intros entries He. apply Hd. by eapply is_array_mono.
Qed.

Lemma parseSnapshot_inr h0 c mc k y h1 :
  is_object h0 c mc →
  parseSnapshot c k h0 = (inr y, h1) →
  h1 = h0 ∧ snapshot_parsed (field mc k) (Some y).
Proof.
  intros Ho E. unfold parseSnapshot in E.
  rewrite (bind_ok _ _ _ _ _ (get_object _ _ _ _ Ho)) in E.
  unfold snapshot_parsed. destruct (truthy (field mc k)).
  - rewrite (bind_ok _ _ _ _ _ (get_object _ _ _ _ Ho)) in E.
    apply decode_inr in E as (e & He & -> & ->). split; [done|]. split.
    + split; [by intros [=]|done].
    + intros _. exists (VExt e). split; [done|by exists e].
  - inversion E; subst. split; [done|]. split; [done|discriminate].
Qed.

Lemma parseStateChange_inr h0 c mc o h1 :
  is_object h0 c mc →
  parseStateChange c h0 = (inr o, h1) →
  ∃ mo, is_object h1 o mo ∧
    mo !! "type" = Some (field mc "type") ∧
    decodes LedgerKey (field mc "key") (field mo "key") ∧
    snapshot_parsed (field mc "before") (mo !! "before") ∧
    snapshot_parsed (field mc "after") (mo !! "after").
Proof.
  intros Ho E. unfold parseStateChange in E.
  rewrite (bind_ok _ _ _ _ _ (get_object _ _ _ _ Ho)) in E.
  rewrite (bind_ok _ _ _ _ _ (get_object _ _ _ _ Ho)) in E.
  apply bind_inr in E as (dk & h2 & E1 & E).
  apply decode_inr in E1 as (e & He & -> & ->).
  apply bind_inr in E as (before & h2 & E1 & E).
  apply (parseSnapshot_inr _ _ _ _ _ _ Ho) in E1 as [-> Hb].
  apply bind_inr in E as (after & h2 & E1 & E).
  apply (parseSnapshot_inr _ _ _ _ _ _ Ho) in E1 as [-> Ha].
  apply new_object_inr in E as [-> ->].
  eexists. split; [apply is_object_new|].
  split; [by rewrite lookup_insert_eq|].
  split.
  { exists e. split; [done|]. unfold field.
    by rewrite lookup_insert_ne, lookup_insert_eq. }
  split.
  - by rewrite 2!lookup_insert_ne, lookup_insert_eq by done.
  - by rewrite 3!lookup_insert_ne, lookup_singleton_eq by done.
Qed.

Lemma parseStateChange_parsed h h0 h1 h' c o :
  h `prefix_of` h0 → h1 `prefix_of` h' →
  parseStateChange c h0 = (inr o, h1) →
  change_parsed h h' c o.
Proof.
  intros P0 P1 E mc Ho.
  destruct (parseStateChange_inr _ _ _ _ _ (is_object_mono _ _ _ _ P0 Ho) E)
    as (mo & Hmo & Hrest).
  exists mo. split; [by eapply is_object_mono|done].
Qed.

(** [sim.k?.length ?? 0 > 0] is truthy exactly on a non-empty array, when
    [sim.k] is an array or is undefined or null. *)
Lemma length_or_false_inr h sim ms k hv h1 :
  is_object h sim ms →
  length_or_false sim k h = (inr hv, h1) →
  h1 = h ∧
  (nullish (field ms k) = true → truthy hv = false) ∧
  (∀ xs, is_array h (field ms k) xs →
         truthy hv = true ↔ xs ≠ []).
Proof.
  intros Ho E. unfold length_or_false in E.
  rewrite (bind_ok _ _ _ _ _ (get_object _ _ _ _ Ho)) in E.
  apply bind_inr in E as (len & h2 & E1 & E).
  pose proof (get_opt_heap _ _ _ _ _ E1) as ->.
  inversion E; subst hv h1; clear E. split; [done|]. split.
  - intros Hn. unfold get_opt in E1. rewrite Hn in E1.
    by inversion E1.
  - intros xs (l & Hl & Ha). unfold get_opt in E1. rewrite Hl in E1.
    cbn [nullish] in E1.
    rewrite (get_length _ _ _ Ha) in E1. inversion E1; subst len.
    cbn. destruct xs; cbn; [split; done|]. split; done.
Qed.

(** *** When the callbacks return *)

Lemma decoded_list_returns kd h h0 v :
  h `prefix_of` h0 →
  absent_or_all h (λ x, is_Some (fromXDR kd x)) v →
  ∃ list h1 y h2,
    or_empty_array v h0 = (inr list, h1) ∧
    array_map (decode kd) list h1 = (inr y, h2) ∧
    h0 `prefix_of` h2.
Proof.
  intros P [Hn|(xs & Ha & Hxs)].
  - exists (VRef (length h0)), (h0 ++ [OArray []]).
    unfold or_empty_array. rewrite Hn.
    rewrite (array_map_array _ _ _ _ (is_array_new h0 [])).
    eexists _, _. split; [done|]. split; [done|].
    rewrite <- (assoc_L (++)). by eexists.
  - apply (is_array_mono _ _ _ _ P) in Ha.
    assert (nullish v = false) as Hn by (by destruct Ha as (l & -> & _)).
    unfold or_empty_array. rewrite Hn. exists v, h0.
    destruct (mapM_decode_returns _ _ h0 Hxs) as (ys & Ey).
    rewrite (array_map_array _ _ _ _ Ha), !bind_unfold, Ey.
    eexists _, _. split; [done|]. split; [done|]. by eexists.
Qed.

Lemma parseResultRow_returns h h0 row :
  h `prefix_of` h0 →
  row_decodes h row →
  ∃ r h1, parseResultRow row h0 = (inr r, h1).
Proof.
  intros P (mrow & Ho & Hauth & Hxdr). unfold parseResultRow.
  pose proof (is_object_mono _ _ _ _ P Ho) as Ho0.
  rewrite (bind_ok _ _ _ _ _ (get_object _ _ _ _ Ho0)).
  destruct (decoded_list_returns _ _ _ _ P Hauth)
    as (list & h1 & entries & h2 & E1 & E2 & P2).
  rewrite (bind_ok _ _ _ _ _ E1), (bind_ok _ _ _ _ _ E2).
  pose proof (is_object_mono _ _ _ _ P2 Ho0) as Ho2.
  rewrite (bind_ok _ _ _ _ _ (get_object _ _ _ _ Ho2)).
  destruct (truthy (field mrow "xdr")) eqn:T.
  - destruct (Hxdr eq_refl) as [e He].
    rewrite (bind_ok _ _ _ (VExt e) h2); [by eexists _, _|].
    rewrite (bind_ok _ _ _ _ _ (get_object _ _ _ _ Ho2)).
    by apply decode_ok.
  - rewrite (bind_ok _ _ _ (VExt scvVoid) h2) by done. by eexists _, _.
Qed.

Lemma parseSnapshot_returns h0 c mc k :
  is_object h0 c mc →
  (truthy (field mc k) = true → is_Some (fromXDR LedgerEntry (field mc k))) →
  ∃ y, parseSnapshot c k h0 = (inr y, h0).
Proof.
  intros Ho Hx. unfold parseSnapshot.
  rewrite (bind_ok _ _ _ _ _ (get_object _ _ _ _ Ho)).
  destruct (truthy (field mc k)).
  - destruct (Hx eq_refl) as [e He].
    rewrite (bind_ok _ _ _ _ _ (get_object _ _ _ _ Ho)).
    rewrite (decode_ok _ _ _ _ He). by eexists.
  - by eexists.
Qed.

Lemma parseStateChange_returns h h0 c :
  h `prefix_of` h0 →
  change_decodes h c →
  ∃ o h1, parseStateChange c h0 = (inr o, h1).
Proof.
  intros P (mc & Ho & [e He] & Hb & Ha). unfold parseStateChange.
  pose proof (is_object_mono _ _ _ _ P Ho) as Ho0.
  do 2 rewrite (bind_ok _ _ _ _ _ (get_object _ _ _ _ Ho0)).
  rewrite (bind_ok _ _ _ _ _ (decode_ok _ _ _ _ He)).
  destruct (parseSnapshot_returns _ _ _ "before" Ho0 Hb) as (b & Eb).
  destruct (parseSnapshot_returns _ _ _ "after" Ho0 Ha) as (a & Ea).
  rewrite (bind_ok _ _ _ _ _ Eb), (bind_ok _ _ _ _ _ Ea). by eexists _, _.
Qed.

(** [sim.k?.length ?? 0 > 0] on an object whose [k] is undefined, null or an
    array. *)
Lemma length_or_false_returns h sim ms k (P : value ext → Prop) h0 :
  is_object h0 sim ms →
  h `prefix_of` h0 →
  absent_or_all h P (field ms k) →
  ∃ hv, length_or_false sim k h0 = (inr hv, h0).
Proof.
  intros Ho Pf Hk. unfold length_or_false.
  rewrite (bind_ok _ _ _ _ _ (get_object _ _ _ _ Ho)).
  destruct Hk as [Hn|(xs & Ha & _)].
  - unfold get_opt. rewrite Hn. by eexists.
  - apply (is_array_mono _ _ _ _ Pf) in Ha. destruct Ha as (l & Hl & Ha).
    unfold get_opt. rewrite Hl. cbn [nullish].
    rewrite (bind_ok _ _ _ _ _ (get_length _ _ _ Ha)). by eexists.
Qed.
End SimulationBlocks.

Section Successful.
Context {ext : Type} `{!Codec ext} `{!ShapeGuard ext}.

Implicit Types (h : heap ext) (v x : value ext) (l : loc) (k : string).
Implicit Types (m : gmap string (value ext)) (xs ys : list (value ext)).

Lemma first_element_array h v xs :
  is_array h v xs → first_element v h = (inr (default VUndef (xs !! 0%nat)), h).
Proof. intros (l & -> & E). unfold first_element. by rewrite E. Qed.

Lemma result_block h h0 sim ms (hv : value ext) part h1 :
  h `prefix_of` h0 →
  is_object h sim ms →
  (nullish (field ms "results") = true → truthy hv = false) →
  (∀ xs, is_array h0 (field ms "results") xs → truthy hv = true ↔ xs ≠ []) →
  (if truthy hv then
     results ← get sim "results";
     rows ← array_map parseResultRow results;
     row ← first_element rows;
     mret ({[ "result" := row ]} : gmap string (value ext))
   else mret ∅) h0 = (inr part, h1) →
  h0 `prefix_of` h1 ∧ ∀ h', h1 `prefix_of` h' → result_part_ok h h' ms part.
Proof.
  intros P0 Ho Hnull Harr E.
  pose proof (is_object_mono _ _ _ _ P0 Ho) as Ho0.
  destruct (truthy hv) eqn:T.
  - rewrite (bind_ok _ _ _ _ _ (get_object _ _ _ _ Ho0)) in E.
    apply bind_inr in E as (rows & h2 & E1 & E).
    apply array_map_inr in E1 as (xs & ys & h3 & Ha & E1 & -> & ->).
    apply mapM_inr in E1 as [P3 F]; [|intros; apply keeps_parseResultRow].
    rewrite (bind_ok _ _ _ _ _ (first_element_array _ _ _ (is_array_new _ _))) in E.
    inversion E; subst; clear E.
    assert (h0 `prefix_of` h3 ++ [OArray ys]) as P4.
    { etrans; [exact P3|]. by eexists. }
    split; [done|]. intros h' P'. split; [|split].
    + intros k Hk. by rewrite lookup_singleton_ne.
    + intros Hn. by specialize (Hnull Hn).
    + intros rows Hr.
      pose proof (is_array_inj _ _ _ _ (is_array_mono _ _ _ _ P0 Hr) Ha) as ->.
      destruct F as [|row r rows rs (h4 & h5 & P4' & P5 & E5) F].
      { by destruct (proj1 (Harr [] Ha) eq_refl). }
      exists r. split; [by rewrite lookup_singleton_eq|].
      eapply parseResultRow_parsed; [| |exact E5].
      * by etrans.
      * etrans; [exact P5|]. etrans; [|exact P']. by eexists.
  - inversion E; subst; clear E. split; [done|].
    intros h' P'. split; [|split]; try done.
    intros rows Hr. destruct rows as [|row rows]; [done|].
    apply (is_array_mono _ _ _ _ P0) in Hr.
    by pose proof (proj2 (Harr _ Hr) ltac:(done)).
Qed.

Lemma changes_block h h0 sim ms (hv : value ext) part h1 :
  h `prefix_of` h0 →
  is_object h sim ms →
  (nullish (field ms "stateChanges") = true → truthy hv = false) →
  (∀ xs, is_array h0 (field ms "stateChanges") xs →
         truthy hv = true ↔ xs ≠ []) →
  (if truthy hv then
     stateChanges ← get sim "stateChanges";
     parsed ← (if nullish stateChanges then mret VUndef
               else array_map parseStateChange stateChanges);
     mret ({[ "stateChanges" := parsed ]} : gmap string (value ext))
   else mret ∅) h0 = (inr part, h1) →
  h0 `prefix_of` h1 ∧ ∀ h', h1 `prefix_of` h' → changes_part_ok h h' ms part.
Proof.
  intros P0 Ho Hnull Harr E.
  pose proof (is_object_mono _ _ _ _ P0 Ho) as Ho0.
  destruct (truthy hv) eqn:T.
  - rewrite (bind_ok _ _ _ _ _ (get_object _ _ _ _ Ho0)) in E.
    destruct (nullish (field ms "stateChanges")) eqn:Hn.
    { by specialize (Hnull eq_refl). }
    apply bind_inr in E as (parsed & h2 & E1 & E).
    apply array_map_inr in E1 as (xs & ys & h3 & Ha & E1 & -> & ->).
    apply mapM_inr in E1 as [P3 F]; [|intros; apply keeps_parseStateChange].
    inversion E; subst; clear E.
    assert (h0 `prefix_of` h3 ++ [OArray ys]) as P4.
    { etrans; [exact P3|]. by eexists. }
    split; [done|]. intros h' P'. split; [|split].
    + intros k Hk. by rewrite lookup_singleton_ne.
    + intros Hn'. congruence.
    + intros cs Hc.
      pose proof (is_array_inj _ _ _ _ (is_array_mono _ _ _ _ P0 Hc) Ha) as ->.
      destruct xs as [|c0 xs]. { by destruct (proj1 (Harr [] Ha) eq_refl). }
      exists (VRef (length h3)), ys.
      split; [by rewrite lookup_singleton_eq|].
      split. { eapply is_array_mono; [exact P'|apply is_array_new]. }
      eapply Forall2_impl; [exact F|].
      intros c o (h4 & h5 & P4' & P5 & E5).
      eapply parseStateChange_parsed; [| |exact E5].
      * by etrans.
      * etrans; [exact P5|]. etrans; [|exact P']. by eexists.
  - inversion E; subst; clear E. split; [done|].
    intros h' P'. split; [|split]; try done.
    intros cs Hc. destruct cs as [|c cs]; [done|].
    apply (is_array_mono _ _ _ _ P0) in Hc.
    by pose proof (proj2 (Harr _ Hc) ltac:(done)).
Qed.

Lemma result_block_returns h h0 sim ms (hv : value ext) :
  h `prefix_of` h0 →
  is_object h sim ms →
  absent_or_all h (row_decodes h) (field ms "results") →
  (nullish (field ms "results") = true → truthy hv = false) →
  ∃ part h1,
    (if truthy hv then
       results ← get sim "results";
       rows ← array_map parseResultRow results;
       row ← first_element rows;
       mret ({[ "result" := row ]} : gmap string (value ext))
     else mret ∅) h0 = (inr part, h1).
Proof.
  intros P0 Ho Hrows Hnull.
  destruct (truthy hv) eqn:T; [|by eexists _, _].
  destruct Hrows as [Hn|(rows & Ha & Hrows)]; [by specialize (Hnull Hn)|].
  pose proof (is_object_mono _ _ _ _ P0 Ho) as Ho0.
  rewrite (bind_ok _ _ _ _ _ (get_object _ _ _ _ Ho0)).
  destruct (mapM_returns parseResultRow rows h0) as (rs & h1 & E).
  { intros. apply keeps_parseResultRow. }
  { eapply Forall_impl; [exact Hrows|]. cbn. intros row Hrow h1 P1.
    eapply parseResultRow_returns; [|exact Hrow]. by etrans. }
  rewrite (bind_ok _ _ _ (VRef (length h1)) (h1 ++ [OArray rs])); last first.
  { rewrite (array_map_array _ _ _ _ (is_array_mono _ _ _ _ P0 Ha)).
    by rewrite (bind_ok _ _ _ _ _ E). }
  rewrite (bind_ok _ _ _ _ _ (first_element_array _ _ _ (is_array_new _ _))).
  by eexists _, _.
Qed.

Lemma changes_block_returns h h0 sim ms (hv : value ext) :
  h `prefix_of` h0 →
  is_object h sim ms →
  absent_or_all h (change_decodes h) (field ms "stateChanges") →
  (nullish (field ms "stateChanges") = true → truthy hv = false) →
  ∃ part h1,
    (if truthy hv then
       stateChanges ← get sim "stateChanges";
       parsed ← (if nullish stateChanges then mret VUndef
                 else array_map parseStateChange stateChanges);
       mret ({[ "stateChanges" := parsed ]} : gmap string (value ext))
     else mret ∅) h0 = (inr part, h1).
Proof.
  intros P0 Ho Hcs Hnull.
  destruct (truthy hv) eqn:T; [|by eexists _, _].
  destruct Hcs as [Hn|(cs & Ha & Hcs)]; [by specialize (Hnull Hn)|].
  pose proof (is_object_mono _ _ _ _ P0 Ho) as Ho0.
  rewrite (bind_ok _ _ _ _ _ (get_object _ _ _ _ Ho0)).
  assert (nullish (field ms "stateChanges") = false) as ->
    by (by destruct Ha as (l & -> & _)).
  destruct (mapM_returns parseStateChange cs h0) as (os & h1 & E).
  { intros. apply keeps_parseStateChange. }
  { eapply Forall_impl; [exact Hcs|]. cbn. intros c Hc h1 P1.
    eapply parseStateChange_returns; [|exact Hc]. by etrans. }
  rewrite (bind_ok _ _ _ (VRef (length h1)) (h1 ++ [OArray os])); last first.
  { rewrite (array_map_array _ _ _ _ (is_array_mono _ _ _ _ P0 Ha)).
    by rewrite (bind_ok _ _ _ _ _ E). }
  by eexists _, _.
Qed.
End Successful.

Section SuccessfulShape.
Context {ext : Type} `{!Codec ext} `{!ShapeGuard ext}.

Implicit Types (h : heap ext) (v x : value ext) (l : loc) (k : string).
Implicit Types (m : gmap string (value ext)) (xs ys : list (value ext)).

Lemma parseSuccessful_inr h h0 sim ms partial mb out h' :
  h `prefix_of` h0 →
  is_object h sim ms →
  is_object h0 partial mb →
  parseSuccessful sim partial h0 = (inr out, h') →
  ∃ builder part_r part_c mo,
    newSorobanDataBuilder (field ms "transactionData") = Some builder ∧
    result_part_ok h h' ms part_r ∧
    changes_part_ok h h' ms part_c ∧
    is_object h' out mo ∧
    ((mo = success_props ms mb builder part_r part_c ∧
      (truthy (field ms "restorePreamble") = false ∨
       ∀ mrp, is_object h (field ms "restorePreamble") mrp →
              field mrp "transactionData" = VStr "")) ∨
     (∃ hint,
        mo = <["restorePreamble" := hint]>
               (success_props ms mb builder part_r part_c) ∧
        truthy (field ms "restorePreamble") = true ∧
        restore_hint_ok h h' ms hint)).
Proof.
  intros P0 Ho Hb E. unfold parseSuccessful in E.
  pose proof (is_object_mono _ _ _ _ P0 Ho) as Ho0.
  rewrite (bind_ok _ _ _ _ _ (own_properties_object _ _ _ Hb)) in E.
  rewrite (bind_ok _ _ _ _ _ (get_object _ _ _ _ Ho0)) in E.
  apply bind_inr in E as (builder & h1 & E1 & E).
  apply lift_codec_inr in E1 as [Hbuilder ->].
  rewrite (bind_ok _ _ _ _ _ (get_object _ _ _ _ Ho0)) in E.
  rewrite (bind_ok _ _ _ _ _ (get_object _ _ _ _ Ho0)) in E.
  apply bind_inr in E as (hasResults & h1 & E1 & E).
  apply (length_or_false_inr _ _ _ _ _ _ Ho0) in E1 as (-> & Rn & Ra).
  apply bind_inr in E as (part_r & h1 & E1 & E).
  apply (result_block h _ _ _ _ _ _ P0 Ho Rn Ra) in E1 as [P1 Hr].
  assert (h `prefix_of` h1) as P01 by (by etrans).
  pose proof (is_object_mono _ _ _ _ P01 Ho) as Ho1.
  apply bind_inr in E as (hasChanges & h2 & E1 & E).
  apply (length_or_false_inr _ _ _ _ _ _ Ho1) in E1 as (-> & Cn & Ca).
  apply bind_inr in E as (part_c & h2 & E1 & E).
  apply (changes_block h _ _ _ _ _ _ P01 Ho Cn Ca) in E1 as [P2 Hc].
  apply bind_inr in E as (success & h3 & E1 & E).
  apply new_object_inr in E1 as [-> ->].
  fold (success_props ms mb builder part_r part_c) in E |- *.
  set (sp := success_props ms mb builder part_r part_c) in *.
  assert (h `prefix_of` h2 ++ [OPlain sp]) as P3.
  { etrans; [exact P01|]. etrans; [exact P2|]. by eexists. }
  pose proof (is_object_mono _ _ _ _ P3 Ho) as Ho3.
  rewrite (bind_ok _ _ _ _ _ (get_object _ _ _ _ Ho3)) in E.
  apply bind_inr in E as (plain & h4 & E1 & E).
  exists builder, part_r, part_c.
  destruct (truthy (field ms "restorePreamble")) eqn:Trp.
  - rewrite (bind_ok _ _ _ _ _ (get_object _ _ _ _ Ho3)) in E1.
    apply bind_inr in E1 as (data & h5 & E1 & E2).
    pose proof (get_heap _ _ _ _ _ E1) as ->.
    inversion E2; subst plain h4; clear E2.
    destruct (is_empty_string data) eqn:Hd.
    + inversion E; subst out h'; clear E.
      exists sp. split; [done|]. split; [apply Hr; etrans; [exact P2|by eexists]|].
      split; [apply Hc; by eexists|]. split; [apply is_object_new|].
      left. split; [done|]. right. intros mrp Hrp.
      rewrite (get_object _ _ _ _ (is_object_mono _ _ _ _ P3 Hrp)) in E1.
      inversion E1; subst data. by apply is_empty_string_spec.
    + rewrite (bind_ok _ _ _ _ _
                 (own_properties_object _ _ _ (is_object_new _ _))) in E.
      rewrite (bind_ok _ _ _ _ _ (get_object _ _ _ _ Ho3)) in E.
      apply bind_inr in E as (fee & h5 & E2 & E).
      pose proof (get_heap _ _ _ _ _ E2) as ->.
      rewrite (bind_ok _ _ _ _ _ (get_object _ _ _ _ Ho3)) in E.
      rewrite (bind_ok _ _ _ _ _ E1) in E.
      apply bind_inr in E as (rb & h5 & E3 & E).
      apply lift_codec_inr in E3 as [Hrb ->].
      apply bind_inr in E as (hint & h5 & E3 & E).
      apply new_object_inr in E3 as [-> ->].
      apply new_object_inr in E as [-> ->].
      eexists. split; [done|].
      assert ((h2 ++ [OPlain sp]) `prefix_of`
              ((h2 ++ [OPlain sp]) ++
                 [OPlain (<["minResourceFee":=fee]>
                            {["transactionData" := VExt rb]})]) ++
                 [OPlain (<["restorePreamble":=
                              VRef (length (h2 ++ [OPlain sp]))]> sp)]) as P5.
      { rewrite <- (assoc_L (++)). by eexists. }
      split. { apply Hr. etrans; [exact P2|]. etrans; [|exact P5]. by eexists. }
      split. { apply Hc. etrans; [|exact P5]. by eexists. }
      split; [apply is_object_new|].
      right. eexists. split; [done|]. split; [done|].
      intros mrp Hrp.
      pose proof (is_object_mono _ _ _ _ P3 Hrp) as Hrp3.
      rewrite (get_object _ _ _ _ Hrp3) in E1. inversion E1; subst data.
      rewrite (get_object _ _ _ _ Hrp3) in E2. inversion E2; subst fee.
      split. { intros Hs. apply is_empty_string_spec in Hs. congruence. }
      exists rb. split; [done|].
      eapply is_object_mono; [|apply is_object_new]. by eexists.
  - inversion E1; subst plain h4; clear E1.
    inversion E; subst out h'; clear E.
    exists sp. split; [done|]. split; [apply Hr; etrans; [exact P2|by eexists]|].
    split; [apply Hc; by eexists|]. split; [apply is_object_new|].
    left. split; [done|]. by left.
Qed.

(** [parseSuccessful] returns when the codec takes what it decodes. *)
Lemma parseSuccessful_returns h h0 sim ms partial mb :
  h `prefix_of` h0 →
  is_object h sim ms →
  is_object h0 partial mb →
  success_decodes h ms →
  ∃ out h', parseSuccessful sim partial h0 = (inr out, h').
Proof.
  intros P0 Ho Hb ([builder Hbuilder] & Hrows & Hcs & Hpre).
  unfold parseSuccessful.
  pose proof (is_object_mono _ _ _ _ P0 Ho) as Ho0.
  rewrite (bind_ok _ _ _ _ _ (own_properties_object _ _ _ Hb)).
  rewrite (bind_ok _ _ _ _ _ (get_object _ _ _ _ Ho0)).
  rewrite (bind_ok _ _ _ builder h0) by (by rewrite Hbuilder).
  do 2 rewrite (bind_ok _ _ _ _ _ (get_object _ _ _ _ Ho0)).
  destruct (length_or_false_returns _ _ _ "results" _ _ Ho0 P0 Hrows)
    as (hasResults & E1).
  rewrite (bind_ok _ _ _ _ _ E1).
  apply (length_or_false_inr _ _ _ _ _ _ Ho0) in E1 as (_ & Rn & Ra).
  destruct (result_block_returns _ _ sim _ hasResults P0 Ho Hrows Rn)
    as (part_r & h1 & E2).
  rewrite (bind_ok _ _ _ _ _ E2).
  apply (result_block h _ _ _ _ _ _ P0 Ho Rn Ra) in E2 as [P1 _].
  assert (h `prefix_of` h1) as P01 by (by etrans).
  pose proof (is_object_mono _ _ _ _ P01 Ho) as Ho1.
  destruct (length_or_false_returns _ _ _ "stateChanges" _ _ Ho1 P01 Hcs)
    as (hasChanges & E3).
  rewrite (bind_ok _ _ _ _ _ E3).
  apply (length_or_false_inr _ _ _ _ _ _ Ho1) in E3 as (_ & Cn & Ca).
  destruct (changes_block_returns _ _ sim _ hasChanges P01 Ho Hcs Cn)
    as (part_c & h2 & E4).
  rewrite (bind_ok _ _ _ _ _ E4).
  apply (changes_block h _ _ _ _ _ _ P01 Ho Cn Ca) in E4 as [P2 _].
  fold (success_props ms mb builder part_r part_c).
  set (sp := success_props ms mb builder part_r part_c).
  rewrite (bind_ok _ _ _ (VRef (length h2)) (h2 ++ [OPlain sp])) by done.
  assert (h `prefix_of` h2 ++ [OPlain sp]) as P3.
  { etrans; [exact P01|]. etrans; [exact P2|]. by eexists. }
  pose proof (is_object_mono _ _ _ _ P3 Ho) as Ho3.
  rewrite (bind_ok _ _ _ _ _ (get_object _ _ _ _ Ho3)).
  destruct Hpre as [Hf|(mrp & Hrp & Hdata)].
  - rewrite Hf. rewrite (bind_ok _ _ _ true (h2 ++ [OPlain sp])) by done.
    by eexists _, _.
  - pose proof (is_object_mono _ _ _ _ P3 Hrp) as Hrp3.
    assert (truthy (field ms "restorePreamble") = true) as ->
      by (by destruct Hrp as (l & -> & _)).
    destruct (is_empty_string (field mrp "transactionData")) eqn:Hd.
    + rewrite (bind_ok _ _ _ true (h2 ++ [OPlain sp])); [by eexists _, _|].
      rewrite (bind_ok _ _ _ _ _ (get_object _ _ _ _ Ho3)).
      rewrite (bind_ok _ _ _ _ _ (get_object _ _ _ _ Hrp3)).
      by rewrite Hd.
    + rewrite (bind_ok _ _ _ false (h2 ++ [OPlain sp])); last first.
      { rewrite (bind_ok _ _ _ _ _ (get_object _ _ _ _ Ho3)).
        rewrite (bind_ok _ _ _ _ _ (get_object _ _ _ _ Hrp3)).
        by rewrite Hd. }
      destruct Hdata as [rb Hrb].
      { intros Hs. apply is_empty_string_spec in Hs. congruence. }
      rewrite (bind_ok _ _ _ _ _
                 (own_properties_object _ _ _ (is_object_new _ _))).
      rewrite (bind_ok _ _ _ _ _ (get_object _ _ _ _ Ho3)).
      rewrite (bind_ok _ _ _ _ _ (get_object _ _ _ _ Hrp3)).
      rewrite (bind_ok _ _ _ _ _ (get_object _ _ _ _ Ho3)).
      rewrite (bind_ok _ _ _ _ _ (get_object _ _ _ _ Hrp3)).
      rewrite (bind_ok _ _ _ rb (h2 ++ [OPlain sp])) by (by rewrite Hrb).
      rewrite bind_unfold. by eexists _, _.
Qed.
End SuccessfulShape.

Section Simulation.
Context {ext : Type} `{!Codec ext} `{!ShapeGuard ext}.

Implicit Types (h : heap ext) (v x : value ext) (l : loc) (k : string).
Implicit Types (m : gmap string (value ext)) (xs ys : list (value ext)).

(** Whatever [sim] is, the success shapes keep the marker of [partial]. *)
Lemma parseSuccessful_marker h0 sim partial mb out h' :
  is_object h0 partial mb →
  mb !! "_parsed" = Some (VBool true) →
  parseSuccessful sim partial h0 = (inr out, h') →
  ∃ mo, is_object h' out mo ∧ mo !! "_parsed" = Some (VBool true).
Proof.
  intros Hb Hm E. unfold parseSuccessful in E.
  rewrite (bind_ok _ _ _ _ _ (own_properties_object _ _ _ Hb)) in E.
  apply bind_inr in E as (transactionData & h1 & _ & E).
  apply bind_inr in E as (builder & h2 & _ & E).
  apply bind_inr in E as (minResourceFee & h3 & _ & E).
  apply bind_inr in E as (cost & h4 & _ & E).
  apply bind_inr in E as (hasResults & h5 & _ & E).
  apply bind_inr in E as (part_r & h6 & E1 & E).
  assert (part_r !! "_parsed" = None) as Hr.
  { destruct (truthy hasResults); [|by inversion E1].
    apply bind_inr in E1 as (? & ? & _ & E1).
    apply bind_inr in E1 as (? & ? & _ & E1).
    apply bind_inr in E1 as (? & ? & _ & E1).
    inversion E1; subst. by rewrite lookup_singleton_ne. }
  apply bind_inr in E as (hasChanges & h7 & _ & E).
  apply bind_inr in E as (part_c & h8 & E2 & E).
  assert (part_c !! "_parsed" = None) as Hc.
  { destruct (truthy hasChanges); [|by inversion E2].
    apply bind_inr in E2 as (? & ? & _ & E2).
    apply bind_inr in E2 as (? & ? & _ & E2).
    inversion E2; subst. by rewrite lookup_singleton_ne. }
  apply bind_inr in E as (success & h9 & E3 & E).
  apply new_object_inr in E3 as [-> ->].
  match type of E with
  | context [OPlain ?p] => set (sp := p) in *
  end.
  assert (sp !! "_parsed" = Some (VBool true)) as Hsp.
  { unfold sp. rewrite lookup_union_r by done. rewrite lookup_union_r by done.
    by rewrite !lookup_insert_ne. }
  apply bind_inr in E as (restorePreamble & h10 & E4 & E).
  pose proof (get_heap _ _ _ _ _ E4) as ->.
  apply bind_inr in E as (plain & h10 & E5 & E).
  assert (h10 = h8 ++ [OPlain sp]) as ->.
  { destruct (truthy restorePreamble); [|by inversion E5].
    apply bind_inr in E5 as (? & h11 & G1 & E5). apply get_heap in G1 as ->.
    apply bind_inr in E5 as (? & h11 & G1 & E5). apply get_heap in G1 as ->.
    by inversion E5. }
  destruct plain.
  - inversion E; subst. exists sp. split; [apply is_object_new|done].
  - rewrite (bind_ok _ _ _ _ _
               (own_properties_object _ _ _ (is_object_new _ _))) in E.
    apply bind_inr in E as (? & h11 & _ & E).
    apply bind_inr in E as (? & h12 & _ & E).
    apply bind_inr in E as (? & h13 & _ & E).
    apply bind_inr in E as (? & h14 & _ & E).
    apply bind_inr in E as (? & h15 & _ & E).
    apply bind_inr in E as (hint & h16 & _ & E).
    apply new_object_inr in E as [-> ->].
    eexists. split; [apply is_object_new|]. by rewrite lookup_insert_ne.
Qed.

(** The base object and the dispatch of [parseRawSimulation], on any input
    the guard takes for raw. *)
Lemma parseRawSimulation_dispatch h sim out h' :
  isSimulationRaw h sim = true →
  parseRawSimulation sim h = (inr out, h') →
  ∃ id latestLedger events error h1,
    get sim "id" h = (inr id, h) ∧
    get sim "latestLedger" h = (inr latestLedger, h) ∧
    h `prefix_of` h1 ∧
    let mb : gmap string (value ext) :=
      <["_parsed" := VBool true]>
        (<["id" := id]>
         (<["latestLedger" := latestLedger]> {[ "events" := events ]})) in
    let h2 := h1 ++ [OPlain mb] in
    ((∃ evs, is_array h1 events evs) ∧
     get sim "error" h2 = (inr error, h2) ∧
     if is_string error then
       out = VRef (length h2) ∧
       h' = h2 ++ [OPlain (<["error" := error]> mb)]
     else parseSuccessful sim (VRef (length h1)) h2 = (inr out, h')).
Proof.
  intros Hraw E. unfold parseRawSimulation in E.
  rewrite (bind_ok _ _ _ true h) in E by (unfold looks_raw; by rewrite Hraw).
  cbn [negb] in E.
  apply bind_inr in E as (id & h0 & G1 & E).
  pose proof (get_heap _ _ _ _ _ G1) as ->.
  apply bind_inr in E as (latestLedger & h0 & G2 & E).
  pose proof (get_heap _ _ _ _ _ G2) as ->.
  apply bind_inr in E as (events & h0 & G3 & E).
  pose proof (get_heap _ _ _ _ _ G3) as ->.
  apply bind_inr in E as (decoded & h1 & E1 & E).
  apply bind_inr in E as (list & h2 & E2 & E).
  apply bind_inr in E as (base & h3 & E3 & E).
  apply new_object_inr in E3 as [-> ->].
  apply bind_inr in E as (error & h3 & G4 & E).
  pose proof (get_heap _ _ _ _ _ G4) as ->.
  assert (h `prefix_of` h2 ∧ ∃ evs, is_array h2 list evs) as [P2 Hevs].
  { destruct (nullish events).
    - inversion E1; subst decoded h1; clear E1.
      apply or_empty_array_inr in E2 as [(_ & -> & ->)|(Hn & _)]; [|done].
      split; [by eexists|]. eexists. apply is_array_new.
    - apply array_map_decode_inr in E1 as (xs & ys' & _ & -> & -> & _).
      apply or_empty_array_inr in E2 as [(Hn & _)|(_ & -> & ->)]; [done|].
      split; [by eexists|]. eexists. apply is_array_new. }
  exists id, latestLedger, list, error, h2.
  split; [done|]. split; [done|]. split; [done|].
  cbn zeta. split; [done|]. split; [done|].
  destruct (is_string error).
  - rewrite (bind_ok _ _ _ _ _
               (own_properties_object _ _ _ (is_object_new _ _))) in E.
    rewrite (bind_ok _ _ _ _ _ G4) in E.
    by apply new_object_inr in E as [-> ->].
  - done.
Qed.

Lemma parseRawSimulation_marker h sim out h' :
  isSimulationRaw h sim = true →
  parseRawSimulation sim h = (inr out, h') →
  ∃ mo, is_object h' out mo ∧ mo !! "_parsed" = Some (VBool true).
Proof.
  intros Hraw E.
  apply (parseRawSimulation_dispatch _ _ _ _ Hraw) in E
    as (id & latestLedger & events & error & h1 & _ & _ & _ & _ & _ & E).
  destruct (is_string error).
  - destruct E as [-> ->]. eexists. split; [apply is_object_new|].
    by rewrite lookup_insert_ne, lookup_insert_eq.
  - eapply parseSuccessful_marker; [apply is_object_new| |exact E].
    by rewrite lookup_insert_eq.
Qed.

(** C1.  [parseRawSimulation] gives back, as it is and without touching the
    store, any value the shape guard does not take for raw.  And when the
    guard takes every object carrying the parsed-marker for parsed, parsing
    twice is parsing once: the second call returns the very object (and the
    store) of the first, and a failure of the first call is the failure of
    both. *)
Theorem parseRawSimulation_idempotent :
  (∀ h sim, isSimulationRaw h sim = false →
            parseRawSimulation sim h = (inr sim, h)) ∧
  (guard_trusts_marker →
   ∀ h sim, (parseRawSimulation sim ≫= parseRawSimulation) h =
            parseRawSimulation sim h).
Proof.
  assert (∀ h sim, isSimulationRaw h sim = false →
                   parseRawSimulation sim h = (inr sim, h)) as Hid.
  { intros h sim Hp. unfold parseRawSimulation.
    rewrite (bind_ok _ _ _ false h) by (unfold looks_raw; by rewrite Hp).
    done. }
  split; [exact Hid|].
  intros Hguard h sim. rewrite bind_unfold.
  destruct (parseRawSimulation sim h) as [[e|out] h1] eqn:E; [done|].
  destruct (isSimulationRaw h sim) eqn:Hraw.
  - destruct (parseRawSimulation_marker _ _ _ _ Hraw E) as (mo & Ho & Hm).
    apply Hid. by eapply Hguard.
  - rewrite (Hid _ _ Hraw) in E. inversion E; subst. by apply Hid.
Qed.

Lemma parseRawSimulation_raw h sim ms out h' :
  is_object h sim ms →
  isSimulationRaw h sim = true →
  parseRawSimulation sim h = (inr out, h') →
  ∃ events mo,
    is_object h' out mo ∧
    ((is_string (field ms "error") = true ∧
      mo = <["error" := field ms "error"]> (base_props ms events)) ∨
     (is_string (field ms "error") = false ∧
      ∃ builder part_r part_c,
        newSorobanDataBuilder (field ms "transactionData") = Some builder ∧
        result_part_ok h h' ms part_r ∧
        changes_part_ok h h' ms part_c ∧
        let sp := success_props ms (base_props ms events) builder
                    part_r part_c in
        ((mo = sp ∧
          (truthy (field ms "restorePreamble") = false ∨
           ∀ mrp, is_object h (field ms "restorePreamble") mrp →
                  field mrp "transactionData" = VStr "")) ∨
         (∃ hint, mo = <["restorePreamble" := hint]> sp ∧
                  truthy (field ms "restorePreamble") = true ∧
                  restore_hint_ok h h' ms hint)))).
Proof.
  intros Ho Hraw E.
  apply (parseRawSimulation_dispatch _ _ _ _ Hraw) in E
    as (id & latestLedger & events & error & h1 & G1 & G2 & P1 & _ & G3 & E).
  rewrite (get_object _ _ _ _ Ho) in G1. inversion G1; subst id; clear G1.
  rewrite (get_object _ _ _ _ Ho) in G2.
  inversion G2; subst latestLedger; clear G2.
  fold (base_props ms events) in *.
  assert (h `prefix_of` h1 ++ [OPlain (base_props ms events)]) as P2.
  { etrans; [exact P1|]. by eexists. }
  rewrite (get_object _ _ _ _ (is_object_mono _ _ _ _ P2 Ho)) in G3.
  inversion G3; subst error; clear G3.
  exists events.
  destruct (is_string (field ms "error")).
  - destruct E as [-> ->]. eexists. split; [apply is_object_new|]. by left.
  - apply (parseSuccessful_inr h _ _ ms _ (base_props ms events)) in E
      as (builder & part_r & part_c & mo & Hb & Hr & Hc & Hmo & Hshape);
      [|done|done|apply is_object_new].
    exists mo. split; [done|]. right. split; [done|].
    by exists builder, part_r, part_c.
Qed.

Lemma base_props_lookup ms (events : value ext) k :
  k ≠ "_parsed" → k ≠ "id" → k ≠ "latestLedger" → k ≠ "events" →
  base_props ms events !! k = None.
Proof.
  intros. unfold base_props. by rewrite !lookup_insert_ne, lookup_singleton_ne.
Qed.

Lemma success_props_other ms mb (builder : ext) part_r part_c k :
  (∀ k', k' ≠ "result" → part_r !! k' = None) →
  (∀ k', k' ≠ "stateChanges" → part_c !! k' = None) →
  k ≠ "result" → k ≠ "stateChanges" →
  success_props ms mb builder part_r part_c !! k =
  (<["cost" := field ms "cost"]>
     (<["minResourceFee" := field ms "minResourceFee"]>
        (<["transactionData" := VExt builder]> mb))) !! k.
Proof.
  intros Hr Hc K1 K2. unfold success_props.
  rewrite lookup_union_r by (by apply Hc).
  by rewrite lookup_union_r by (by apply Hr).
Qed.

Lemma success_props_result ms (events : value ext) (builder : ext)
    part_r part_c :
  (∀ k', k' ≠ "stateChanges" → part_c !! k' = None) →
  success_props ms (base_props ms events) builder part_r part_c !! "result"
  = part_r !! "result".
Proof.
  intros Hc. unfold success_props.
  rewrite lookup_union_r by (by apply Hc).
  destruct (part_r !! "result") as [r|] eqn:Er.
  - by apply lookup_union_Some_l.
  - rewrite lookup_union_r by done.
    rewrite !lookup_insert_ne by done. by apply base_props_lookup.
Qed.

Lemma success_props_changes ms (events : value ext) (builder : ext)
    part_r part_c :
  (∀ k', k' ≠ "result" → part_r !! k' = None) →
  success_props ms (base_props ms events) builder part_r part_c
    !! "stateChanges" = part_c !! "stateChanges".
Proof.
  intros Hr. unfold success_props.
  destruct (part_c !! "stateChanges") as [r|] eqn:Er.
  - by apply lookup_union_Some_l.
  - rewrite lookup_union_r by done.
    rewrite lookup_union_r by (by apply Hr).
    rewrite !lookup_insert_ne by done. by apply base_props_lookup.
Qed.

Lemma error_shape_tail h h2 sim ms e (list : value ext) :
  is_object h sim ms →
  h `prefix_of` h2 →
  field ms "error" = VStr e →
  ∃ out h',
    (base ← new_object
              (<["_parsed" := VBool true]>
               (<["id" := field ms "id"]>
                (<["latestLedger" := field ms "latestLedger"]>
                 {[ "events" := list ]})));
     error ← get sim "error";
     if is_string error then
       fields ← own_properties base;
       message ← get sim "error";
       new_object (<["error" := message]> fields)
     else parseSuccessful sim base) h2 = (inr out, h') ∧
    is_object h' out (<["error" := VStr e]> (base_props ms list)).
Proof.
  intros Ho P He. fold (base_props ms list).
  rewrite (bind_ok _ _ _ (VRef (length h2))
             (h2 ++ [OPlain (base_props ms list)])) by done.
  assert (h `prefix_of` h2 ++ [OPlain (base_props ms list)]) as P3.
  { etrans; [exact P|]. by eexists. }
  rewrite (bind_ok _ _ _ _ _
             (get_object _ _ _ _ (is_object_mono _ _ _ _ P3 Ho))).
  rewrite He. cbn [is_string].
  rewrite (bind_ok _ _ _ _ _
             (own_properties_object _ _ _ (is_object_new _ _))).
  rewrite (bind_ok _ _ _ _ _
             (get_object _ _ _ _ (is_object_mono _ _ _ _ P3 Ho))).
  rewrite He. eexists _, _. split; [reflexivity|]. apply is_object_new.
Qed.

Lemma simulation_tail_returns h h2 sim ms (list : value ext) :
  is_object h sim ms →
  h `prefix_of` h2 →
  is_string (field ms "error") = true ∨ success_decodes h ms →
  ∃ out h',
    (base ← new_object
              (<["_parsed" := VBool true]>
               (<["id" := field ms "id"]>
                (<["latestLedger" := field ms "latestLedger"]>
                 {[ "events" := list ]})));
     error ← get sim "error";
     if is_string error then
       fields ← own_properties base;
       message ← get sim "error";
       new_object (<["error" := message]> fields)
     else parseSuccessful sim base) h2 = (inr out, h').
Proof.
  intros Ho P Hshape.
  destruct (is_string (field ms "error")) eqn:Herr.
  - destruct (field ms "error") as [| | | |e| |] eqn:He; try discriminate.
    destruct (error_shape_tail h h2 sim ms e list Ho P He)
      as (out & h' & E & _).
    by exists out, h'.
  - destruct Hshape as [|Hdec]; [done|].
    fold (base_props ms list).
    rewrite (bind_ok _ _ _ (VRef (length h2))
               (h2 ++ [OPlain (base_props ms list)])) by done.
    assert (h `prefix_of` h2 ++ [OPlain (base_props ms list)]) as P3.
    { etrans; [exact P|]. by eexists. }
    rewrite (bind_ok _ _ _ _ _
               (get_object _ _ _ _ (is_object_mono _ _ _ _ P3 Ho))).
    rewrite Herr.
    eapply parseSuccessful_returns; [exact P3|exact Ho|apply is_object_new|done].
Qed.

(** [parseRawSimulation] returns on a raw object when the codec takes what
    the shape at hand is made of: the events, and for a response without an
    error string the payloads of the success shapes. *)
Lemma parseRawSimulation_returns h sim ms :
  is_object h sim ms →
  isSimulationRaw h sim = true →
  events_decode h ms →
  is_string (field ms "error") = true ∨ success_decodes h ms →
  ∃ out h', parseRawSimulation sim h = (inr out, h').
Proof.
  intros Ho Hraw Hev Hshape. unfold parseRawSimulation.
  rewrite (bind_ok _ _ _ true h) by (unfold looks_raw; by rewrite Hraw).
  cbn [negb].
  do 3 rewrite (bind_ok _ _ _ _ _ (get_object _ _ _ _ Ho)).
  destruct Hev as [Hn|(xs & Ha & Hxs)].
  - rewrite Hn. rewrite (bind_ok _ _ _ VUndef h) by done.
    rewrite (bind_ok _ _ _ (VRef (length h)) (h ++ [OArray []])) by done.
    apply (simulation_tail_returns h); [done|by eexists|done].
  - assert (nullish (field ms "events") = false) as ->.
    { destruct Ha as (l & -> & _). done. }
    destruct (mapM_decode_returns _ _ h Hxs) as (ys & Ey).
    rewrite (bind_ok _ _ _ (VRef (length h)) (h ++ [OArray ys])); last first.
    { rewrite (array_map_array _ _ _ _ Ha), !bind_unfold, Ey. reflexivity. }
    rewrite (bind_ok _ _ _ (VRef (length h)) (h ++ [OArray ys])) by done.
    apply (simulation_tail_returns h); [done|by eexists|done].
Qed.

(** C2.  On a raw simulation object, [parseRawSimulation] returns as soon
    as the codec takes what the shape at hand is made of, and a call that
    returns gives an object of exactly one of the three shapes: the error
    shape exactly when the raw [error] is a string; otherwise the
    restore-hint shape only when the raw [restorePreamble] is truthy and its
    [transactionData] is not the empty string, and always then; and the
    plain success shape in the remaining cases, that is when
    [restorePreamble] is falsy or its [transactionData] is the empty
    string. *)
Theorem parseRawSimulation_variant h sim ms :
  is_object h sim ms →
  isSimulationRaw h sim = true →
  (events_decode h ms →
   is_string (field ms "error") = true ∨ success_decodes h ms →
   ∃ out h', parseRawSimulation sim h = (inr out, h')) ∧
  (∀ out h', parseRawSimulation sim h = (inr out, h') →
   ∃ mo var,
     is_object h' out mo ∧ variant_of mo = Some var ∧
     (var = Error ↔ is_string (field ms "error") = true) ∧
     (var = RestoreHint →
      truthy (field ms "restorePreamble") = true ∧
      ∀ mrp, is_object h (field ms "restorePreamble") mrp →
             field mrp "transactionData" ≠ VStr "") ∧
     (is_string (field ms "error") = false →
      ∀ mrp, is_object h (field ms "restorePreamble") mrp →
             field mrp "transactionData" ≠ VStr "" → var = RestoreHint) ∧
     (is_string (field ms "error") = false →
      (truthy (field ms "restorePreamble") = false ∨
       ∃ mrp, is_object h (field ms "restorePreamble") mrp ∧
              field mrp "transactionData" = VStr "") →
      var = Success)).
Proof.
  intros Ho Hraw. split; [by apply parseRawSimulation_returns|].
  intros out h' E.
  destruct (parseRawSimulation_raw _ _ _ _ _ Ho Hraw E)
    as (events & mo & Hmo & [[Herr ->]|(Herr & builder & part_r & part_c &
          Hb & Hr & Hc & Hshape)]).
  - eexists _, Error. split; [done|]. split.
    { unfold variant_of. rewrite lookup_insert_eq.
      rewrite !lookup_insert_ne by done.
      by rewrite !base_props_lookup. }
    split; [done|]. split; [done|]. split; intros; congruence.
  - destruct Hr as (Hr & _), Hc as (Hc & _). cbn zeta in Hshape.
    set (sp := success_props ms (base_props ms events) builder part_r part_c)
      in *.
    assert (sp !! "error" = None) as S1.
    { unfold sp. rewrite success_props_other by done.
      rewrite !lookup_insert_ne by done. by apply base_props_lookup. }
    assert (sp !! "restorePreamble" = None) as S2.
    { unfold sp. rewrite success_props_other by done.
      rewrite !lookup_insert_ne by done. by apply base_props_lookup. }
    assert (sp !! "transactionData" = Some (VExt builder)) as S3.
    { unfold sp. rewrite success_props_other by done.
      by rewrite 2!lookup_insert_ne, lookup_insert_eq by done. }
    destruct Hshape as [[-> Hplain]|(hint & -> & Htr & Hhint)].
    + exists sp, Success. split; [done|]. split.
      { unfold variant_of. by rewrite S1, S2, S3. }
      split; [split; [done|congruence]|]. split; [done|]. split; [|done].
      intros _ mrp Hrp Hne. destruct Hplain as [Hf|Hall].
      * destruct Hrp as (l & Hl & _). rewrite Hl in Hf. discriminate.
      * by destruct Hne; apply Hall.
    + eexists _, RestoreHint. split; [done|]. split.
      { unfold variant_of. rewrite lookup_insert_eq.
        by rewrite !lookup_insert_ne, S1, S3. }
      split; [split; [done|congruence]|]. split.
      { intros _. split; [done|]. intros mrp Hrp. by apply Hhint. }
      split; [done|]. intros _ [Hf|(mrp & Hrp & He)]; [congruence|].
      by destruct (proj1 (Hhint mrp Hrp)).
Qed.

(** C8.  On a raw simulation object without an error string,
    [parseRawSimulation] returns as soon as the codec takes what the success
    shapes are made of, a results row without a truthy [xdr] included.  A
    call that returns gives an object with no [result] when the raw
    [results] is undefined, null or an empty array; when it is a non-empty
    array, the output has one [result], an object (not an array) made of the
    first row: its [auth] is the array of the decoded raw [auth] entries
    (empty for a missing [auth]), and its [retval] is the decoding of the
    row's [xdr] when this is truthy and the void value otherwise. *)
Theorem parseRawSimulation_result h sim ms :
  is_object h sim ms →
  isSimulationRaw h sim = true →
  is_string (field ms "error") = false →
  (events_decode h ms → success_decodes h ms →
   ∃ out h', parseRawSimulation sim h = (inr out, h')) ∧
  (∀ out h', parseRawSimulation sim h = (inr out, h') →
   ∃ mo,
     is_object h' out mo ∧
     (nullish (field ms "results") = true → mo !! "result" = None) ∧
     (∀ rows, is_array h (field ms "results") rows →
        match rows with
        | [] => mo !! "result" = None
        | row :: _ => ∃ r, mo !! "result" = Some r ∧ result_parsed h h' row r
        end)).
Proof.
  intros Ho Hraw Herr. split.
  { intros Hev Hdec. apply (parseRawSimulation_returns _ _ ms); auto. }
  intros out h' E.
  destruct (parseRawSimulation_raw _ _ _ _ _ Ho Hraw E)
    as (events & mo & Hmo & [[Herr' _]|(_ & builder & part_r & part_c &
          Hb & Hr & Hc & Hshape)]); [congruence|].
  exists mo. split; [done|].
  destruct Hr as (Hr1 & Hr2 & Hr3), Hc as (Hc & _). cbn zeta in Hshape.
  assert (mo !! "result" = part_r !! "result") as ->.
  { destruct Hshape as [[-> _]|(hint & -> & _)].
    - by apply success_props_result.
    - rewrite lookup_insert_ne by done. by apply success_props_result. }
  done.
Qed.

(** C9, as the code has it.  A call on a raw simulation object without an
    error string that returns gives an object with no [stateChanges] when
    the raw [stateChanges] is undefined, null or an empty array; when it is
    a non-empty array, the output [stateChanges] is an array with, in order,
    one object per raw state change that has the copied [type], the decoded
    [key], and a [before] and an [after] that are null exactly when the raw
    snapshot is falsy and its decoding otherwise. *)
Theorem parseRawSimulation_stateChanges h sim ms out h' :
  is_object h sim ms →
  isSimulationRaw h sim = true →
  is_string (field ms "error") = false →
  parseRawSimulation sim h = (inr out, h') →
  ∃ mo,
    is_object h' out mo ∧
    (nullish (field ms "stateChanges") = true →
     mo !! "stateChanges" = None) ∧
    (∀ cs, is_array h (field ms "stateChanges") cs →
       match cs with
       | [] => mo !! "stateChanges" = None
       | _ :: _ =>
           ∃ sc outs, mo !! "stateChanges" = Some sc ∧
                      is_array h' sc outs ∧
                      Forall2 (change_parsed h h') cs outs
       end).
Proof.
  intros Ho Hraw Herr E.
  destruct (parseRawSimulation_raw _ _ _ _ _ Ho Hraw E)
    as (events & mo & Hmo & [[Herr' _]|(_ & builder & part_r & part_c &
          Hb & Hr & Hc & Hshape)]); [congruence|].
  exists mo. split; [done|].
  destruct Hr as (Hr & _), Hc as (Hc1 & Hc2 & Hc3). cbn zeta in Hshape.
  assert (mo !! "stateChanges" = part_c !! "stateChanges") as ->.
  { destruct Hshape as [[-> _]|(hint & -> & _)].
    - by apply success_props_changes.
    - rewrite lookup_insert_ne by done. by apply success_props_changes. }
  done.
Qed.

End Simulation.

Section Purity.
Context {ext : Type} `{!Codec ext} `{!ShapeGuard ext}.

Implicit Types (h : heap ext) (v x : value ext) (l : loc) (k : string).
Implicit Types (m : gmap string (value ext)) (xs ys : list (value ext)).

(** X13.  Every parser but [parseRawSendTransaction] leaves every object of
    the store it is called in as it is, whether it returns or throws: the
    store after the call is the store before it, followed by the objects the
    call created. *)
Lemma parsers_leave_the_store v h :
  h `prefix_of` (parseTransactionInfo v h).2 ∧
  h `prefix_of` (parseRawTransactions v h).2 ∧
  h `prefix_of` (parseRawEvents v h).2 ∧
  h `prefix_of` (parseRawLedgerEntries v h).2 ∧
  h `prefix_of` (parseRawSimulation v h).2.
Proof.
  repeat split; apply keeps_prefix.
  - apply keeps_parseTransactionInfo.
  - apply keeps_parseRawTransactions.
  - apply keeps_parseRawEvents.
  - apply keeps_parseRawLedgerEntries.
  - apply keeps_parseRawSimulation.
Qed.

(** What follows the two [delete]s of [parseRawSendTransaction] only
    creates objects. *)
Lemma send_tail_keeps n r (a b : value ext) h :
  keeps n
    (if truthy a then
       rest ← own_properties r;
       diag ← match b with
              | VUndef => mret ∅
              | _ =>
                  len ← get b "length";
                  nonempty ← gt_zero len;
                  if (nonempty : bool) then
                    evts ← array_map (decode DiagnosticEvent) b;
                    mret ({[ "diagnosticEvents" := evts ]}
                          : gmap string (value ext))
                  else mret ∅
              end;
       errorResult ← decode TransactionResult a;
       new_object (<["errorResult" := errorResult]> (diag ∪ rest))
     else
       rest ← own_properties r;
       new_object rest) h.
Proof. keeps_go. Qed.

(** X14.  [parseRawSendTransaction] leaves its argument, an object, without
    [errorResultXdr] and [diagnosticEventsXdr] and with its other properties
    as they were, whether it returns or throws. *)
Lemma parseRawSendTransaction_argument h l m :
  h !! l = Some (OPlain m) →
  (parseRawSendTransaction (VRef l) h).2 !! l = Some (OPlain (send_rest m)).
Proof.
  intros Hl. unfold parseRawSendTransaction. rewrite (send_prefix _ _ _ Hl).
  assert (l < length h)%nat as Hlt by (by eapply lookup_lt_Some).
  match goal with
  | |- (?c ?h2).2 !! _ = _ =>
      pose proof (keeps_lookup c h2 l (send_tail_keeps _ _ _ _ _)) as K
  end.
  rewrite K by (by rewrite length_insert).
  by apply list_lookup_insert_eq.
Qed.
End Purity.

(** C3 fails on [parseRawSendTransaction]: called on the response
    [{ status: "ERROR", hash: "ab", errorResultXdr: "AAAA",
       diagnosticEventsXdr: [] }], it returns a new object and leaves the
    caller's object with [status] and [hash] only. *)
Theorem parseRawSendTransaction_strips_its_argument :
  Sample.send_error_heap !! 1%nat = Some (OPlain Sample.send_error_props) ∧
  (parseRawSendTransaction (VRef 1%nat) Sample.send_error_heap).1 =
    inr (VRef 2%nat) ∧
  (parseRawSendTransaction (VRef 1%nat) Sample.send_error_heap).2 !! 1%nat =
    Some (OPlain (<["status" := VStr "ERROR"]> {[ "hash" := VStr "ab" ]})).
Proof.
  split; [reflexivity|]. split; [vm_compute; reflexivity|].
  vm_compute. reflexivity.
Qed.
(** ** The statements at work on sample responses *)

Lemma marker_guard_trusts_marker : guard_trusts_marker (ext := Sample.t).
Proof.
  intros h v m (l & -> & Hl) Hm. cbn. unfold Sample.marker_guard.
  by rewrite Hl, Hm.
Qed.

Lemma parseRawSimulation_idempotent_witness :
  let parsed := parseRawSimulation (VRef 7%nat) Sample.simulation_heap in
  (isSimulationRaw parsed.2 (VRef 15%nat) = false ∧
   parseRawSimulation (VRef 15%nat) parsed.2 = (inr (VRef 15%nat), parsed.2)) ∧
  (guard_trusts_marker (ext := Sample.t) ∧
   isSimulationRaw Sample.simulation_heap (VRef 7%nat) = true ∧
   (parseRawSimulation (VRef 7%nat) ≫= parseRawSimulation)
     Sample.simulation_heap = parsed).
Proof.
  split.
  - split; [vm_compute; reflexivity|].
    apply (proj1 parseRawSimulation_idempotent). vm_compute. reflexivity.
  - split; [exact marker_guard_trusts_marker|]. split; [reflexivity|].
    apply (proj2 parseRawSimulation_idempotent marker_guard_trusts_marker).
Defined.

Lemma parseRawSimulation_variant_witness :
  (∃ out h' mo,
     parseRawSimulation (VRef 1%nat) Sample.simulation_error_heap =
       (inr out, h') ∧
     is_object h' out mo ∧ variant_of mo = Some Error) ∧
  (∃ out h' mo,
     parseRawSimulation (VRef 7%nat) Sample.simulation_heap = (inr out, h') ∧
     is_object h' out mo ∧ variant_of mo = Some Success) ∧
  (∃ out h' mo,
     parseRawSimulation (VRef 2%nat) Sample.simulation_restore_heap =
       (inr out, h') ∧
     is_object h' out mo ∧ variant_of mo = Some RestoreHint).
Proof.
  split; [|split].
  - destruct (parseRawSimulation_variant Sample.simulation_error_heap
                (VRef 1%nat) Sample.simulation_error_props)
      as [Hret Hvar].
    { exists 1%nat. split; reflexivity. }
    { reflexivity. }
    destruct Hret as (out & h' & E).
    { right. exists [VStr "EVT"]. split; [exists 0%nat; split; reflexivity|].
      constructor; [eexists; reflexivity|constructor]. }
    { left. reflexivity. }
    destruct (Hvar out h' E) as (mo & var & Hmo & Hv & He & _).
    exists out, h', mo. split; [exact E|]. split; [exact Hmo|].
    rewrite Hv. f_equal. apply He. reflexivity.
  - destruct (parseRawSimulation_variant Sample.simulation_heap
                (VRef 7%nat) Sample.simulation_props)
      as [Hret Hvar].
    { exists 7%nat. split; reflexivity. }
    { reflexivity. }
    destruct Hret as (out & h' & E).
    { left. reflexivity. }
    { right. split; [eexists; reflexivity|]. split; [|split].
      - right. exists [VRef 1%nat].
        split; [exists 2%nat; split; reflexivity|].
        constructor; [|constructor]. exists Sample.result_row.
        split; [exists 1%nat; split; reflexivity|]. split.
        + right. exists []. split; [exists 0%nat; split; reflexivity|].
          constructor.
        + intros _. eexists. reflexivity.
      - right. exists [VRef 3%nat].
        split; [exists 4%nat; split; reflexivity|].
        constructor; [|constructor]. exists Sample.state_change.
        split; [exists 3%nat; split; reflexivity|].
        split; [eexists; reflexivity|]. split.
        + intros Ht. vm_compute in Ht. discriminate.
        + intros _. eexists. reflexivity.
      - right. exists Sample.empty_preamble.
        split; [exists 6%nat; split; reflexivity|].
        intros Hne. destruct Hne. reflexivity. }
    destruct (Hvar out h' E) as (mo & var & Hmo & Hv & _ & _ & _ & Hs).
    exists out, h', mo. split; [exact E|]. split; [exact Hmo|].
    rewrite Hv. f_equal. apply Hs; [reflexivity|].
    right. exists Sample.empty_preamble. split; [|reflexivity].
    exists 6%nat. split; reflexivity.
  - destruct (parseRawSimulation_variant Sample.simulation_restore_heap
                (VRef 2%nat) Sample.simulation_restore_props)
      as [Hret Hvar].
    { exists 2%nat. split; reflexivity. }
    { reflexivity. }
    destruct Hret as (out & h' & E).
    { left. reflexivity. }
    { right. split; [eexists; reflexivity|]. split; [by left|].
      split; [by left|]. right. exists Sample.restore_preamble.
      split; [exists 1%nat; split; reflexivity|].
      intros _. eexists. reflexivity. }
    destruct (Hvar out h' E) as (mo & var & Hmo & Hv & _ & _ & Hr & _).
    exists out, h', mo. split; [exact E|]. split; [exact Hmo|].
    rewrite Hv. f_equal. apply (Hr eq_refl Sample.restore_preamble).
    + exists 1%nat. split; reflexivity.
    + discriminate.
Defined.


Lemma parseRawLedgerEntries_malformed_witness :
  ∃ h', parseRawLedgerEntries (VRef 3%nat) Sample.ledger_heap_second_malformed
        = (inl (InvalidLedgerEntry (VRef 1%nat)), h').
Proof.
  apply (proj2 (parseRawLedgerEntries_malformed
                  Sample.ledger_heap_second_malformed (VRef 3%nat)
                  Sample.ledger_props [VRef 0%nat; VRef 1%nat] 1%nat
                  (VRef 1%nat) Sample.entry_malformed
                  (ex_intro _ 3%nat (conj eq_refl eq_refl))
                  (ex_intro _ 2%nat (conj eq_refl eq_refl))
                  eq_refl
                  (ex_intro _ 1%nat (conj eq_refl eq_refl))
                  eq_refl)).
  constructor; [|constructor].
  exists Sample.entry_good. split; [exists 0%nat; split; reflexivity|].
  split; [reflexivity|]. split; [reflexivity|].
  split; eexists; reflexivity.
Defined.


Lemma parseRawSimulation_result_witness :
  (∃ out h' mo r mr,
     parseRawSimulation (VRef 3%nat) Sample.simulation_void_heap =
       (inr out, h') ∧
     is_object h' out mo ∧ mo !! "result" = Some r ∧
     is_object h' r mr ∧ is_array h' (field mr "auth") [] ∧
     mr !! "retval" = Some (VExt Sample.Void)) ∧
  (∃ out h' mo r mr,
     parseRawSimulation (VRef 7%nat) Sample.simulation_heap = (inr out, h') ∧
     is_object h' out mo ∧ mo !! "result" = Some r ∧
     is_object h' r mr ∧ is_array h' (field mr "auth") [] ∧
     field mr "retval" = VExt (Sample.Decoded ScVal "VOID")).
Proof.
  split.
  - destruct (parseRawSimulation_result Sample.simulation_void_heap
                (VRef 3%nat) Sample.simulation_void_props)
      as [Hret Hres].
    { exists 3%nat. split; reflexivity. }
    { reflexivity. }
    { reflexivity. }
    destruct Hret as (out & h' & E).
    { left. reflexivity. }
    { split; [eexists; reflexivity|]. split; [|split].
      - right. exists [VRef 0%nat].
        split; [exists 1%nat; split; reflexivity|].
        constructor; [|constructor]. exists Sample.result_row_bare.
        split; [exists 0%nat; split; reflexivity|]. split.
        + left. reflexivity.
        + intros Ht. vm_compute in Ht. discriminate.
      - left. reflexivity.
      - left. reflexivity. }
    destruct (Hres out h' E) as (mo & Hmo & _ & Hrows).
    destruct (Hrows [VRef 0%nat]) as (r & Hr & Hp).
    { exists 1%nat. split; reflexivity. }
    destruct (Hp Sample.result_row_bare) as (mr & auths & Hmr & Ha & Hn & _ & Hv).
    { exists 0%nat. split; reflexivity. }
    exists out, h', mo, r, mr. split; [exact E|]. split; [exact Hmo|].
    split; [exact Hr|]. split; [exact Hmr|].
    split; [by rewrite <- (Hn eq_refl)|]. exact Hv.
  - destruct (parseRawSimulation_result Sample.simulation_heap
                (VRef 7%nat) Sample.simulation_props)
      as [Hret Hres].
    { exists 7%nat. split; reflexivity. }
    { reflexivity. }
    { reflexivity. }
    destruct Hret as (out & h' & E).
    { left. reflexivity. }
    { split; [eexists; reflexivity|]. split; [|split].
      - right. exists [VRef 1%nat].
        split; [exists 2%nat; split; reflexivity|].
        constructor; [|constructor]. exists Sample.result_row.
        split; [exists 1%nat; split; reflexivity|]. split.
        + right. exists []. split; [exists 0%nat; split; reflexivity|].
          constructor.
        + intros _. eexists. reflexivity.
      - right. exists [VRef 3%nat].
        split; [exists 4%nat; split; reflexivity|].
        constructor; [|constructor]. exists Sample.state_change.
        split; [exists 3%nat; split; reflexivity|].
        split; [eexists; reflexivity|]. split.
        + intros Ht. vm_compute in Ht. discriminate.
        + intros _. eexists. reflexivity.
      - right. exists Sample.empty_preamble.
        split; [exists 6%nat; split; reflexivity|].
        intros Hne. destruct Hne. reflexivity. }
    destruct (Hres out h' E) as (mo & Hmo & _ & Hrows).
    destruct (Hrows [VRef 1%nat]) as (r & Hr & Hp).
    { exists 2%nat. split; reflexivity. }
    destruct (Hp Sample.result_row) as (mr & auths & Hmr & Ha & _ & Hd & Hv).
    { exists 1%nat. split; reflexivity. }
    exists out, h', mo, r, mr. split; [exact E|]. split; [exact Hmo|].
    split; [exact Hr|]. split; [exact Hmr|]. split.
    + specialize (Hd [] (ex_intro _ 0%nat (conj eq_refl eq_refl))).
      inversion Hd; subst. exact Ha.
    + destruct Hv as (e & He & ->). vm_compute in He. by inversion He.
Defined.

Lemma parseRawSimulation_stateChanges_witness :
  ∃ mo sc outs,
    is_object (parseRawSimulation (VRef 7%nat) Sample.simulation_heap).2
      (VRef 15%nat) mo ∧
    mo !! "stateChanges" = Some sc ∧
    is_array (parseRawSimulation (VRef 7%nat) Sample.simulation_heap).2
      sc outs ∧
    Forall2 (change_parsed Sample.simulation_heap
               (parseRawSimulation (VRef 7%nat) Sample.simulation_heap).2)
      [VRef 3%nat] outs.
Proof.
  destruct (parseRawSimulation_stateChanges Sample.simulation_heap
              (VRef 7%nat) Sample.simulation_props (VRef 15%nat)
              (parseRawSimulation (VRef 7%nat) Sample.simulation_heap).2)
    as (mo & Hmo & _ & Hcs).
  - exists 7%nat. split; reflexivity.
  - reflexivity.
  - reflexivity.
  - vm_compute. reflexivity.
  - destruct (Hcs [VRef 3%nat]) as (sc & outs & Hsc & Ha & F).
    + exists 4%nat. split; reflexivity.
    + by exists mo, sc, outs.
Defined.

Lemma absent_list_parses_to_empty_witness :
  (∃ out h' mo,
     parseRawEvents (VRef 0%nat) Sample.bare_heap = (inr out, h') ∧
     is_object h' out mo ∧ is_array h' (field mo "events") []) ∧
  (∃ out h' mo,
     parseRawLedgerEntries (VRef 0%nat) Sample.bare_heap = (inr out, h') ∧
     is_object h' out mo ∧ is_array h' (field mo "entries") []).
Proof.
  destruct (absent_list_parses_to_empty Sample.bare_heap (VRef 0%nat)
              Sample.bare_props (ex_intro _ 0%nat (conj eq_refl eq_refl)))
    as [He Hl].
  split; [apply He|apply Hl]; reflexivity.
Defined.

(** C9 as stated fails when the list of state changes is there and empty:
    the success shape then has no [stateChanges] at all. *)
Lemma empty_stateChanges_are_dropped :
  is_object Sample.simulation_heap_no_changes (VRef 2%nat)
    Sample.simulation_no_changes_props ∧
  is_array Sample.simulation_heap_no_changes
    (field Sample.simulation_no_changes_props "stateChanges") [] ∧
  isSimulationRaw Sample.simulation_heap_no_changes (VRef 2%nat) = true ∧
  is_string (field Sample.simulation_no_changes_props "error") = false ∧
  ∃ mo,
    (parseRawSimulation (VRef 2%nat) Sample.simulation_heap_no_changes).1 =
      inr (VRef 5%nat) ∧
    is_object (parseRawSimulation (VRef 2%nat)
                 Sample.simulation_heap_no_changes).2 (VRef 5%nat) mo ∧
    mo !! "stateChanges" = None.
Proof.
  split; [exists 2%nat; split; reflexivity|].
  split; [exists 0%nat; split; reflexivity|].
  split; [reflexivity|]. split; [reflexivity|].
  eexists. split; [vm_compute; reflexivity|].
  split; [exists 5%nat; split; [reflexivity|vm_compute; reflexivity]|].
  vm_compute. reflexivity.
Qed.
(** ** Further properties: ledger entries *)

Section LedgerEntriesParsed.
Context {ext : Type} `{!Codec ext} `{!ShapeGuard ext}.

Implicit Types (h : heap ext) (v x : value ext) (l : loc) (k : string).
Implicit Types (m : gmap string (value ext)) (xs ys : list (value ext)).

Lemma parseLedgerEntry_inr h0 e me o h1 :
  is_object h0 e me →
  parseLedgerEntry e h0 = (inr o, h1) →
  ∃ mo, is_object h1 o mo ∧
    mo !! "lastModifiedLedgerSeq" = Some (field me "lastModifiedLedgerSeq") ∧
    decodes LedgerKey (field me "key") (field mo "key") ∧
    decodes LedgerEntryData (field me "xdr") (field mo "val") ∧
    mo !! "liveUntilLedgerSeq" = live_until (field me "liveUntilLedgerSeq") ∧
    (∀ k, k ≠ "lastModifiedLedgerSeq" → k ≠ "key" → k ≠ "val" →
          k ≠ "liveUntilLedgerSeq" → mo !! k = None).
Proof.
  intros Ho E. unfold parseLedgerEntry in E.
  rewrite (bind_ok _ _ _ _ _ (get_object _ _ _ _ Ho)) in E.
  apply bind_inr in E as (malformed & h2 & E1 & E).
  assert (h2 = h0) as ->.
  { destruct (truthy (field me "key")); [|by inversion E1].
    rewrite (bind_ok _ _ _ _ _ (get_object _ _ _ _ Ho)) in E1.
    by inversion E1. }
  destruct malformed; [discriminate|].
  rewrite (bind_ok _ _ _ _ _ (get_object _ _ _ _ Ho)) in E.
  rewrite (bind_ok _ _ _ _ _ (get_object _ _ _ _ Ho)) in E.
  apply bind_inr in E as (dk & h2 & E2 & E).
  apply decode_inr in E2 as (ek & Hk & -> & ->).
  rewrite (bind_ok _ _ _ _ _ (get_object _ _ _ _ Ho)) in E.
  apply bind_inr in E as (dv & h2 & E2 & E).
  apply decode_inr in E2 as (ev & Hv & -> & ->).
  rewrite (bind_ok _ _ _ _ _ (get_object _ _ _ _ Ho)) in E.
  apply bind_inr in E as (live & h2 & E2 & E).
  assert (h2 = h0 ∧
          live !! "liveUntilLedgerSeq"
            = live_until (field me "liveUntilLedgerSeq") ∧
          ∀ k, k ≠ "liveUntilLedgerSeq" → live !! k = None)
    as (-> & Hl & Hlk).
  { destruct (field me "liveUntilLedgerSeq") eqn:El.
    1: by inversion E2.
    all: rewrite (bind_ok _ _ _ _ _ (get_object _ _ _ _ Ho)) in E2;
      rewrite El in E2; inversion E2; subst; split; [done|];
      split; [by rewrite lookup_singleton_eq|];
      intros k Hk'; by rewrite lookup_singleton_ne. }
  apply new_object_inr in E as [-> ->].
  eexists. split; [apply is_object_new|].
  split.
  { rewrite lookup_union_r by (by apply Hlk). by rewrite lookup_insert_eq. }
  split.
  { exists ek. split; [done|]. unfold field.
    rewrite lookup_union_r by (by apply Hlk).
    by rewrite lookup_insert_ne, lookup_insert_eq. }
  split.
  { exists ev. split; [done|]. unfold field.
    rewrite lookup_union_r by (by apply Hlk).
    by rewrite 2!lookup_insert_ne, lookup_singleton_eq by done. }
  split.
  { destruct (live !! "liveUntilLedgerSeq") as [y|] eqn:Ey.
    - rewrite <- Hl. by apply lookup_union_Some_l.
    - rewrite <- Hl, lookup_union_r by done.
      by rewrite !lookup_insert_ne, lookup_singleton_ne. }
  intros k K1 K2 K3 K4. rewrite lookup_union_r by (by apply Hlk).
  by rewrite !lookup_insert_ne, lookup_singleton_ne.
Qed.

Lemma parseLedgerEntry_parsed h h0 h1 h' e o :
  h `prefix_of` h0 → h1 `prefix_of` h' →
  parseLedgerEntry e h0 = (inr o, h1) →
  entry_parsed h h' e o.
Proof.
  intros P0 P1 E me Ho.
  destruct (parseLedgerEntry_inr _ _ _ _ _ (is_object_mono _ _ _ _ P0 Ho) E)
    as (mo & Hmo & Hrest).
  exists mo. split; [by eapply is_object_mono|done].
Qed.

(** X1.  From a raw ledger-entries response whose [entries] is an array, a
    call that returns gives a new object with the copied [latestLedger] and an
    [entries] array that holds, in order, one object per raw entry.  For a raw
    entry that is an object, the output entry has the copied
    [lastModifiedLedgerSeq], the decoded [key], the decoded [xdr] under the
    name [val], a [liveUntilLedgerSeq] exactly when the raw one is not
    undefined, and nothing else: other raw properties are not carried over. *)
Theorem parseRawLedgerEntries_entries h raw m es out h' :
  is_object h raw m →
  is_array h (field m "entries") es →
  parseRawLedgerEntries raw h = (inr out, h') →
  ∃ mo outs,
    is_object h' out mo ∧
    mo !! "latestLedger" = Some (field m "latestLedger") ∧
    is_array h' (field mo "entries") outs ∧
    Forall2 (entry_parsed h h') es outs.
Proof.
  intros Ho Ha E.
  rewrite (parseRawLedgerEntries_array _ _ _ _ Ho Ha) in E.
  apply bind_inr in E as (parsed & h2 & E2 & E).
  apply bind_inr in E2 as (ys & h3 & E2 & E3).
  inversion E3; subst parsed h2; clear E3.
  apply mapM_inr in E2 as [P F]; [|intros; apply keeps_parseLedgerEntry].
  apply new_object_inr in E as [-> ->].
  eexists _, ys. split; [apply is_object_new|].
  split; [by rewrite lookup_insert_eq|].
  assert (h3 `prefix_of` (h3 ++ [OArray ys]) ++
            [OPlain (<["latestLedger":=field m "latestLedger"]>
                       {["entries" := VRef (length h3)]})]) as P3.
  { rewrite <- (assoc_L (++)). by eexists. }
  split.
  { unfold field. rewrite lookup_insert_ne, lookup_singleton_eq by done. cbn.
    eapply is_array_mono; [|apply is_array_new]. by eexists. }
  eapply Forall2_impl; [exact F|].
  intros e o (h0 & h4 & P0 & P4 & E').
  eapply parseLedgerEntry_parsed; [exact P0| |exact E']. by etrans.
Qed.

(** [mapM] returns when the callback returns on every element, in every
    later store. *)
(** X2.  [parseRawLedgerEntries] returns on every response whose [entries]
    is an array of objects that all have a truthy [key] and [xdr] which the
    codec decodes: nothing else in an entry can make the call fail. *)
Theorem parseRawLedgerEntries_returns h raw m es :
  is_object h raw m →
  is_array h (field m "entries") es →
  Forall (entry_decodes h) es →
  ∃ out h', parseRawLedgerEntries raw h = (inr out, h').
Proof.
  intros Ho Ha Hes.
  rewrite (parseRawLedgerEntries_array _ _ _ _ Ho Ha).
  destruct (mapM_returns parseLedgerEntry es h) as (ys & h1 & E).
  - intros. apply keeps_parseLedgerEntry.
  - eapply Forall_impl; [exact Hes|]. cbn. intros e He h0 P.
    by eapply parseLedgerEntry_decodes.
  - eexists _, _. rewrite !bind_unfold, E. reflexivity.
Qed.
End LedgerEntriesParsed.
(** ** Further properties: transaction info *)

Section TransactionInfoShape.
Context {ext : Type} `{!Codec ext} `{!ShapeGuard ext}.

Implicit Types (h : heap ext) (v x : value ext) (l : loc) (k : string).
Implicit Types (m : gmap string (value ext)) (xs ys : list (value ext)).

Lemma has_property_object h v m k :
  is_object h v m →
  has_property k v h = (inr (bool_decide (is_Some (m !! k))), h).
Proof. intros (l & -> & E). unfold has_property. by rewrite E. Qed.

Lemma insert_new_under h (o o' : obj ext) t :
  <[length h := o']> ((h ++ [o]) ++ t) = (h ++ [o']) ++ t.
Proof.
  rewrite insert_app_l by (rewrite length_app; cbn; lia).
  f_equal. replace (length h) with (length h + 0)%nat by lia.
  by rewrite insert_app_r.
Qed.

Lemma truthy_present m k :
  truthy (if bool_decide (is_Some (m !! k)) then field m k else VBool false)
  = truthy (field m k).
Proof.
  unfold field. case_bool_decide as Hk; [done|].
  destruct (m !! k) as [y|] eqn:E; [|done]. destruct Hk. eauto.
Qed.

(** The optional diagnostic events of [parseTransactionInfo], on an object. *)
Lemma diagnostic_block_object raw m h mi h' (info : value ext) :
  is_object h raw m →
  (present ← has_property "diagnosticEventsXdr" raw;
   events ← (if (present : bool) then get raw "diagnosticEventsXdr"
             else mret (VBool false));
   (if truthy events then
      events' ← get raw "diagnosticEventsXdr";
      decoded ← array_map (decode DiagnosticEvent) events';
      set_property (VRef (length h)) "diagnosticEventsXdr" decoded
    else mret tt);;
   mret (VRef (length h) : value ext)) (h ++ [OPlain mi]) = (inr info, h') →
  info = VRef (length h) ∧
  ((truthy (field m "diagnosticEventsXdr") = false ∧
    h' = h ++ [OPlain mi]) ∨
   (truthy (field m "diagnosticEventsXdr") = true ∧
    ∃ xs ys, is_array h (field m "diagnosticEventsXdr") xs ∧
             Forall2 (decodes DiagnosticEvent) xs ys ∧
             h' = (h ++ [OPlain (<["diagnosticEventsXdr" :=
                                    VRef (S (length h))]> mi)])
                  ++ [OArray ys])).
Proof.
  intros Ho E.
  assert (is_object (h ++ [OPlain mi]) raw m) as Ho1.
  { eapply is_object_mono; [|exact Ho]. by eexists. }
  rewrite (bind_ok _ _ _ _ _ (has_property_object _ _ _ _ Ho1)) in E.
  apply bind_inr in E as (events & h2 & E1 & E).
  assert (h2 = h ++ [OPlain mi] ∧
          truthy events = truthy (field m "diagnosticEventsXdr")) as [-> Ht].
  { rewrite <- truthy_present. case_bool_decide.
    - rewrite (get_object _ _ _ _ Ho1) in E1. by inversion E1.
    - by inversion E1. }
  rewrite Ht in E.
  apply bind_inr in E as ([] & h2 & E & E').
  inversion E'; subst info h2; clear E'. split; [done|].
  destruct (truthy (field m "diagnosticEventsXdr")).
  - right. split; [done|].
    rewrite (bind_ok _ _ _ _ _ (get_object _ _ _ _ Ho1)) in E.
    apply bind_inr in E as (decoded & h2 & E2 & E).
    apply array_map_decode_inr in E2 as (xs & ys & Ha & -> & -> & F).
    apply is_array_alloc_inv in Ha; [|done].
    rewrite (set_property_plain _ _ mi) in E
      by (apply lookup_alloc_old, lookup_alloc_new).
    inversion E; subst h'. exists xs, ys. split; [done|]. split; [done|].
    rewrite insert_new_under. rewrite length_app. cbn.
    by replace (length h + 1)%nat with (S (length h)) by lia.
  - left. split; [done|]. by inversion E.
Qed.

Lemma parseTransactionInfo_inr h raw m info h' :
  is_object h raw m →
  parseTransactionInfo raw h = (inr info, h') →
  ∃ envelope result meta mi,
    fromXDR TransactionEnvelope (field m "envelopeXdr") = Some envelope ∧
    fromXDR TransactionResult (field m "resultXdr") = Some result ∧
    fromXDR TransactionMeta (field m "resultMetaXdr") = Some meta ∧
    info = VRef (length h) ∧
    h `prefix_of` h' ∧
    is_object h' info mi ∧
    (∀ k, k ≠ "returnValue" → k ≠ "diagnosticEventsXdr" →
          mi !! k = info_base m envelope result meta !! k) ∧
    (is_Some (mi !! "diagnosticEventsXdr") ↔
     truthy (field m "diagnosticEventsXdr") = true) ∧
    (∀ d, mi !! "diagnosticEventsXdr" = Some d →
          ∃ xs ys, is_array h (field m "diagnosticEventsXdr") xs ∧
                   is_array h' d ys ∧
                   Forall2 (decodes DiagnosticEvent) xs ys).
Proof.
  intros Ho E. unfold parseTransactionInfo in E.
  rewrite (bind_ok _ _ _ _ _ (get_object _ _ _ _ Ho)) in E.
  apply bind_inr in E as (meta & h1 & E1 & E).
  apply lift_codec_inr in E1 as [Hmeta ->].
  do 5 rewrite (bind_ok _ _ _ _ _ (get_object _ _ _ _ Ho)) in E.
  apply bind_inr in E as (envelope & h1 & E1 & E).
  apply decode_inr in E1 as (env & Henv & -> & ->).
  rewrite (bind_ok _ _ _ _ _ (get_object _ _ _ _ Ho)) in E.
  apply bind_inr in E as (result & h1 & E1 & E).
  apply decode_inr in E1 as (res & Hres & -> & ->).
  apply bind_inr in E as (info0 & h1 & E1 & E).
  apply new_object_inr in E1 as [-> ->].
  fold (info_base m env res meta) in E.
  apply bind_inr in E as ([] & h2 & E1 & E2).
  exists env, res, meta.
  assert (info_base m env res meta !! "diagnosticEventsXdr" = None) as Hd0.
  { unfold info_base. by rewrite !lookup_insert_ne, lookup_singleton_ne. }
  assert (∃ m1, h2 = h ++ [OPlain m1] ∧
                m1 !! "diagnosticEventsXdr" = None ∧
                ∀ k, k ≠ "returnValue" →
                     m1 !! k = info_base m env res meta !! k)
    as (m1 & -> & Hd1 & Hk1).
  { apply return_value_block in E1
      as [(-> & _)|(rec3 & _ & _ & _ & ->)].
    - eexists. split; [done|]. split; [done|]. done.
    - eexists. split; [done|]. split; [by rewrite lookup_insert_ne|].
      intros k Hk. by rewrite lookup_insert_ne. }
  apply (diagnostic_block_object _ _ _ _ _ _ Ho) in E2
    as [-> [(Hf & ->)|(Ht & xs & ys & Ha & F & ->)]].
  - exists m1. split; [done|]. split; [done|]. split; [done|].
    split; [done|]. split; [by eexists|]. split; [apply is_object_new|].
    split; [intros k K1 K2; by apply Hk1|]. rewrite Hd1.
    split; [split; [by intros [? ?]|congruence]|]. done.
  - eexists. split; [done|]. split; [done|]. split; [done|].
    split; [done|].
    split. { rewrite <- (assoc_L (++)). by eexists. }
    split.
    { exists (length h). split; [done|].
      apply lookup_alloc_old, lookup_alloc_new. }
    split.
    { intros k K1 K2. rewrite lookup_insert_ne by done. by apply Hk1. }
    rewrite lookup_insert_eq. split; [split; eauto|].
    intros d [= <-].
    exists xs, ys. split; [done|]. split; [|done].
    exists (S (length h)). split; [done|].
    rewrite lookup_app_r by (rewrite length_app; cbn; lia).
    rewrite length_app. cbn [length].
    by replace (S (length h) - (length h + 1))%nat with 0%nat by lia.
Qed.

(** X3.  From a raw transaction-info object, a call of
    [parseTransactionInfo] that returns gives a new object with [ledger],
    [createdAt], [applicationOrder] and [feeBump] copied, with [envelopeXdr],
    [resultXdr] and [resultMetaXdr] holding the decoded raw payloads, and
    with no [status].  It has a [diagnosticEventsXdr] exactly when the raw one
    is truthy, which then is an array whose elements it decodes in order: an
    empty raw list gives an empty list, not an absent field. *)
Theorem parseTransactionInfo_fields h raw m info h' :
  is_object h raw m →
  parseTransactionInfo raw h = (inr info, h') →
  ∃ mi,
    is_object h' info mi ∧
    mi !! "ledger" = Some (field m "ledger") ∧
    mi !! "createdAt" = Some (field m "createdAt") ∧
    mi !! "applicationOrder" = Some (field m "applicationOrder") ∧
    mi !! "feeBump" = Some (field m "feeBump") ∧
    decodes TransactionEnvelope (field m "envelopeXdr")
      (field mi "envelopeXdr") ∧
    decodes TransactionResult (field m "resultXdr") (field mi "resultXdr") ∧
    decodes TransactionMeta (field m "resultMetaXdr")
      (field mi "resultMetaXdr") ∧
    mi !! "status" = None ∧
    (is_Some (mi !! "diagnosticEventsXdr") ↔
     truthy (field m "diagnosticEventsXdr") = true) ∧
    (∀ d, mi !! "diagnosticEventsXdr" = Some d →
          ∃ xs ys, is_array h (field m "diagnosticEventsXdr") xs ∧
                   is_array h' d ys ∧
                   Forall2 (decodes DiagnosticEvent) xs ys).
Proof.
  intros Ho E.
  destruct (parseTransactionInfo_inr _ _ _ _ _ Ho E)
    as (env & res & meta & mi & Henv & Hres & Hmeta & _ & _ & Hmi & Hk &
        Hd & Hda).
  exists mi. split; [done|].
  unfold field at 6 8 10. rewrite !Hk by done. unfold info_base.
  split; [by rewrite lookup_insert_eq|].
  split; [by rewrite lookup_insert_ne, lookup_insert_eq|].
  split; [by rewrite 2!lookup_insert_ne, lookup_insert_eq by done|].
  split; [by rewrite 3!lookup_insert_ne, lookup_insert_eq by done|].
  split.
  { rewrite 4!lookup_insert_ne, lookup_insert_eq by done. by exists env. }
  split.
  { rewrite 5!lookup_insert_ne, lookup_insert_eq by done. by exists res. }
  split.
  { rewrite 6!lookup_insert_ne, lookup_singleton_eq by done. by exists meta. }
  split; [by rewrite !lookup_insert_ne, lookup_singleton_ne|].
  done.
Qed.

(** X4.  [parseTransactionInfo] decodes the result metadata before anything
    else: on an object whose [resultMetaXdr] does not decode, the call throws
    the codec's failure on that payload and has created nothing, whatever the
    other properties are. *)
Theorem parseTransactionInfo_meta_first h raw m :
  is_object h raw m →
  fromXDR TransactionMeta (field m "resultMetaXdr") = None →
  parseTransactionInfo raw h =
  (inl (CodecError (Some TransactionMeta) (field m "resultMetaXdr")), h).
Proof.
  intros Ho Hm. unfold parseTransactionInfo.
  rewrite (bind_ok _ _ _ _ _ (get_object _ _ _ _ Ho)).
  rewrite bind_unfold. by rewrite Hm.
Qed.

(** X5.  [parseRawTransactions] is [parseTransactionInfo] with the raw
    [status] added: it fails exactly as [parseTransactionInfo] fails, and
    when that returns an object it returns a new object, stored next, with
    the same properties and [status] set to the raw [status]. *)
Theorem parseRawTransactions_adds_status h r m :
  is_object h r m →
  (∀ e h1, parseTransactionInfo r h = (inl e, h1) →
           parseRawTransactions r h = (inl e, h1)) ∧
  (∀ info h1, parseTransactionInfo r h = (inr info, h1) →
     ∃ mi, is_object h1 info mi ∧
           parseRawTransactions r h =
           (inr (VRef (length h1)),
            h1 ++ [OPlain (<["status" := field m "status"]> mi)])).
Proof.
  intros Ho. split.
  - intros e h1 E. unfold parseRawTransactions.
    rewrite (bind_ok _ _ _ _ _ (get_object _ _ _ _ Ho)).
    rewrite bind_unfold. by rewrite E.
  - intros info h1 E.
    destruct (parseTransactionInfo_inr _ _ _ _ _ Ho E)
      as (env & res & meta & mi & _ & _ & _ & _ & _ & Hmi & Hk & _ & _).
    exists mi. split; [done|]. unfold parseRawTransactions.
    rewrite (bind_ok _ _ _ _ _ (get_object _ _ _ _ Ho)).
    rewrite (bind_ok _ _ _ _ _ E).
    rewrite (bind_ok _ _ _ _ _ (own_properties_object _ _ _ Hmi)).
    assert (mi !! "status" = None) as Hs.
    { rewrite Hk by done. unfold info_base.
      by rewrite !lookup_insert_ne, lookup_singleton_ne. }
    assert (mi ∪ {[ "status" := field m "status" ]}
            = <["status" := field m "status"]> mi) as ->; [|done].
    apply map_eq. intros k. destruct (decide (k = "status")) as [->|Hne].
    + rewrite lookup_insert_eq, lookup_union_r by done.
      by rewrite lookup_singleton_eq.
    + rewrite lookup_insert_ne by done.
      destruct (mi !! k) as [y|] eqn:Ey.
      * by apply lookup_union_Some_l.
      * rewrite lookup_union_r by done. by rewrite lookup_singleton_ne.
Qed.
End TransactionInfoShape.
(** ** Further properties: send transaction *)

Section SendTransactionEdges.
Context {ext : Type} `{!Codec ext} `{!ShapeGuard ext}.

Implicit Types (h : heap ext) (v x : value ext) (l : loc) (k : string).
Implicit Types (m : gmap string (value ext)) (xs ys : list (value ext)).

(** X6.  A raw send-transaction response with a truthy [errorResultXdr] and
    a [diagnosticEventsXdr] that is null (not undefined) makes
    [parseRawSendTransaction] throw a TypeError, on reading the length of
    null, before anything is decoded; the two raw properties are gone from
    the argument all the same. *)
Theorem parseRawSendTransaction_null_events h l m :
  h !! l = Some (OPlain m) →
  truthy (field m "errorResultXdr") = true →
  field m "diagnosticEventsXdr" = VNull →
  parseRawSendTransaction (VRef l) h =
  (inl NativeTypeError, <[l := OPlain (send_rest m)]> h).
Proof.
  intros Hl Ht Hn. unfold parseRawSendTransaction.
  rewrite (send_prefix _ _ _ Hl), Ht, Hn.
  assert (<[l := OPlain (send_rest m)]> h !! l = Some (OPlain (send_rest m)))
    as Hl2.
  { apply list_lookup_insert_eq. by eapply lookup_lt_Some. }
  by rewrite (bind_ok _ _ _ _ _ (own_properties_plain _ _ _ Hl2)).
Qed.

Lemma send_diag_returns dx xs h :
  is_array h dx xs →
  all_decode DiagnosticEvent xs →
  ∃ diag h1,
    match dx with
    | VUndef => mret ∅
    | _ =>
        len ← get dx "length";
        nonempty ← gt_zero len;
        if (nonempty : bool) then
          evts ← array_map (decode DiagnosticEvent) dx;
          mret ({[ "diagnosticEvents" := evts ]} : gmap string (value ext))
        else mret ∅
    end h = (inr diag, h1).
Proof.
  intros Ha Hxs. pose proof Ha as (la & -> & Hla).
  rewrite (bind_ok _ _ _ _ _ (get_length _ _ _ Hla)).
  destruct xs as [|x xs].
  - eexists _, _. reflexivity.
  - rewrite bind_unfold. cbn [gt_zero ret].
    replace (0 <? Z.of_nat (length (x :: xs)))%Z with true
      by (symmetry; apply Z.ltb_lt; cbn [length]; lia).
    destruct (mapM_decode_returns _ _ h Hxs) as (ys & Ey).
    eexists _, _. cbv beta iota. rewrite bind_unfold.
    rewrite (array_map_array _ _ _ _ Ha), !bind_unfold, Ey. reflexivity.
Qed.

(** X7.  On a raw send-transaction object with a truthy [errorResultXdr],
    [parseRawSendTransaction] returns as soon as the codec decodes that
    payload and [diagnosticEventsXdr] is undefined or an array of payloads
    that all decode. *)
Theorem parseRawSendTransaction_error_returns h l m :
  h !! l = Some (OPlain m) →
  truthy (field m "errorResultXdr") = true →
  is_Some (fromXDR TransactionResult (field m "errorResultXdr")) →
  (field m "diagnosticEventsXdr" = VUndef ∨
   ∃ xs, is_array h (field m "diagnosticEventsXdr") xs ∧
         all_decode DiagnosticEvent xs) →
  ∃ out h', parseRawSendTransaction (VRef l) h = (inr out, h').
Proof.
  intros Hl Ht [er Her] Hd. unfold parseRawSendTransaction.
  rewrite (send_prefix _ _ _ Hl), Ht.
  assert (<[l := OPlain (send_rest m)]> h !! l = Some (OPlain (send_rest m)))
    as Hl2.
  { apply list_lookup_insert_eq. by eapply lookup_lt_Some. }
  rewrite (bind_ok _ _ _ _ _ (own_properties_plain _ _ _ Hl2)).
  destruct Hd as [->|(xs & Ha & Hxs)].
  - rewrite (bind_ok _ _ _ ∅ (<[l := OPlain (send_rest m)]> h)) by done.
    rewrite (bind_ok _ _ _ _ _ (decode_ok _ _ _ _ Her)). by eexists _, _.
  - apply (is_array_update _ _ _ (send_rest m) _ _ Hl) in Ha.
    destruct (send_diag_returns _ _ _ Ha Hxs) as (diag & h1 & Ed).
    rewrite (bind_ok _ _ _ _ _ Ed).
    rewrite (bind_ok _ _ _ _ _ (decode_ok _ _ _ _ Her)). by eexists _, _.
Qed.
End SendTransactionEdges.
(** ** Further properties: events *)

Section EventsEdges.
Context {ext : Type} `{!Codec ext} `{!ShapeGuard ext}.

Implicit Types (h : heap ext) (v x : value ext) (l : loc) (k : string).
Implicit Types (m : gmap string (value ext)) (xs ys : list (value ext)).

Lemma parseEvent_no_contractId h0 evt me :
  is_object h0 evt me →
  me !! "contractId" = None →
  newContract (VUndef : value ext) = None →
  parseEvent evt h0 =
  (inl (CodecError None VUndef), h0 ++ [OPlain (delete "contractId" me)]).
Proof.
  intros Ho Hc Hn. unfold parseEvent.
  rewrite (bind_ok _ _ _ _ _ (own_properties_object _ _ _ Ho)).
  rewrite (bind_ok _ _ _ (VRef (length h0)) (h0 ++ [OPlain me])) by done.
  rewrite (bind_ok _ _ _ _ _ (delete_new h0 (OPlain me) me "contractId")).
  rewrite (bind_ok _ _ _ _ _ (own_properties_object _ _ _ (is_object_new _ _))).
  assert (h0 `prefix_of` h0 ++ [OPlain (delete "contractId" me)]) as P
    by (by eexists).
  rewrite (bind_ok _ _ _ _ _ (get_object _ _ _ _ (is_object_mono _ _ _ _ P Ho))).
  unfold field. rewrite Hc. cbn [default is_empty_string].
  rewrite !bind_unfold. by rewrite Hn.
Qed.

Lemma parseRawEvents_array h r m es :
  is_object h r m →
  is_array h (field m "events") es →
  parseRawEvents r h =
  (parsed ← (ys ← mapM parseEvent es; new_array ys);
   new_object (<["latestLedger" := field m "latestLedger"]>
                 {[ "events" := parsed ]})) h.
Proof.
  intros Ho Ha. unfold parseRawEvents.
  rewrite (bind_ok _ _ _ _ _ (get_object _ _ _ _ Ho)).
  rewrite (bind_ok _ _ _ _ _ (get_object _ _ _ _ Ho)).
  assert (nullish (field m "events") = false) as Hn.
  { destruct Ha as (l & -> & _). done. }
  unfold or_empty_array. rewrite Hn.
  rewrite (bind_ok _ _ _ (field m "events") h) by done.
  rewrite !bind_unfold. by rewrite (array_map_array _ _ _ _ Ha).
Qed.

(** X8.  Only the empty string stands for no contract: a raw event without
    any [contractId] is handed to the [Contract] constructor as undefined.
    With a constructor that rejects undefined, a response holding such an
    event makes [parseRawEvents] fail, and when that event is the first one
    the failure is the constructor's. *)
Theorem parseRawEvents_absent_contractId h r m es i evt me :
  is_object h r m →
  is_array h (field m "events") es →
  es !! i = Some evt →
  is_object h evt me →
  me !! "contractId" = None →
  newContract (VUndef : value ext) = None →
  (∃ err h', parseRawEvents r h = (inl err, h')) ∧
  (i = 0%nat →
   ∃ h', parseRawEvents r h = (inl (CodecError None VUndef), h')).
Proof.
  intros Ho Ha Hi He Hc Hn.
  rewrite (parseRawEvents_array _ _ _ _ Ho Ha).
  assert (∀ h0, h `prefix_of` h0 →
                parseEvent evt h0 =
                (inl (CodecError None VUndef),
                 h0 ++ [OPlain (delete "contractId" me)])) as Hz.
  { intros h0 P. apply parseEvent_no_contractId; [|done..].
    by eapply is_object_mono. }
  split.
  - destruct (mapM_fails parseEvent es evt h) as (err & h1 & E).
    + intros. apply keeps_parseEvent.
    + by eapply list_elem_of_lookup_2.
    + intros h0 P. rewrite (Hz h0 P). eauto.
    + exists err, h1. by rewrite !bind_unfold, E.
  - intros ->. destruct es as [|e0 es]; [done|]. inversion Hi; subst e0.
    eexists. cbn [mapM]. rewrite !bind_unfold, (Hz h) by done. reflexivity.
Qed.
End EventsEdges.
(** ** Further properties: simulation *)

Section SimulationShapes.
Context {ext : Type} `{!Codec ext} `{!ShapeGuard ext}.

Implicit Types (h : heap ext) (v x : value ext) (l : loc) (k : string).
Implicit Types (m : gmap string (value ext)) (xs ys : list (value ext)).

(** The start of [parseRawSimulation] on a raw object: the decoded events
    and the base object, then the dispatch on [error]. *)
Lemma parseRawSimulation_base_events h sim ms out h' :
  is_object h sim ms →
  isSimulationRaw h sim = true →
  parseRawSimulation sim h = (inr out, h') →
  ∃ events outs h1,
    h `prefix_of` h1 ∧
    is_array h1 events outs ∧
    (nullish (field ms "events") = true → outs = []) ∧
    (∀ xs, is_array h (field ms "events") xs →
           Forall2 (decodes DiagnosticEvent) xs outs) ∧
    let h2 := h1 ++ [OPlain (base_props ms events)] in
    if is_string (field ms "error") then
      out = VRef (length h2) ∧
      h' = h2 ++ [OPlain (<["error" := field ms "error"]>
                            (base_props ms events))]
    else parseSuccessful sim (VRef (length h1)) h2 = (inr out, h').
Proof.
  intros Ho Hraw E. unfold parseRawSimulation in E.
  rewrite (bind_ok _ _ _ true h) in E by (unfold looks_raw; by rewrite Hraw).
  cbn [negb] in E.
  do 3 rewrite (bind_ok _ _ _ _ _ (get_object _ _ _ _ Ho)) in E.
  apply bind_inr in E as (decoded & h1 & E1 & E).
  apply bind_inr in E as (list & h2 & E2 & E).
  apply bind_inr in E as (base & h3 & E3 & E).
  apply new_object_inr in E3 as [-> ->].
  fold (base_props ms list) in E.
  assert (h `prefix_of` h2 ∧ ∃ outs,
            is_array h2 list outs ∧
            (nullish (field ms "events") = true → outs = []) ∧
            (∀ xs, is_array h (field ms "events") xs →
                   Forall2 (decodes DiagnosticEvent) xs outs))
    as (P2 & outs & Hl & Hn & Hd).
  { destruct (nullish (field ms "events")) eqn:Hnull.
    - inversion E1; subst decoded h1; clear E1.
      apply or_empty_array_inr in E2 as [(_ & -> & ->)|(Hn & _)]; [|done].
      split; [by eexists|]. exists []. split; [apply is_array_new|].
      split; [done|]. intros xs (l & Hx & _). by rewrite Hx in Hnull.
    - apply array_map_decode_inr in E1 as (xs & ys' & Ha & -> & -> & F).
      apply or_empty_array_inr in E2 as [(Hn & _)|(_ & -> & ->)]; [done|].
      split; [by eexists|]. exists ys'. split; [apply is_array_new|].
      split; [done|]. intros xs' Ha'.
      by rewrite (is_array_inj _ _ _ _ Ha' Ha). }
  assert (h `prefix_of` h2 ++ [OPlain (base_props ms list)]) as P3.
  { etrans; [exact P2|]. by eexists. }
  rewrite (bind_ok _ _ _ _ _
             (get_object _ _ _ _ (is_object_mono _ _ _ _ P3 Ho))) in E.
  exists list, outs, h2. split; [done|]. split; [done|]. split; [done|].
  split; [done|]. cbn zeta.
  destruct (is_string (field ms "error")); [|done].
  rewrite (bind_ok _ _ _ _ _
             (own_properties_object _ _ _ (is_object_new _ _))) in E.
  rewrite (bind_ok _ _ _ _ _
             (get_object _ _ _ _ (is_object_mono _ _ _ _ P3 Ho))) in E.
  by apply new_object_inr in E as [-> ->].
Qed.

Lemma base_props_marker ms (events : value ext) :
  base_props ms events !! "_parsed" = Some (VBool true) ∧
  base_props ms events !! "id" = Some (field ms "id") ∧
  base_props ms events !! "latestLedger" = Some (field ms "latestLedger") ∧
  base_props ms events !! "events" = Some events.
Proof.
  unfold base_props. split; [by rewrite lookup_insert_eq|].
  split; [by rewrite lookup_insert_ne, lookup_insert_eq|].
  split; [by rewrite 2!lookup_insert_ne, lookup_insert_eq by done|].
  by rewrite 3!lookup_insert_ne, lookup_singleton_eq by done.
Qed.

(** X9.  Whatever the shape, a call of [parseRawSimulation] on a raw object
    that returns gives an object with the marker [_parsed: true], the copied
    [id] and [latestLedger], and an [events] array holding the decoded raw
    events in order, which is empty when the raw [events] is undefined or
    null. *)
Theorem parseRawSimulation_base h sim ms out h' :
  is_object h sim ms →
  isSimulationRaw h sim = true →
  parseRawSimulation sim h = (inr out, h') →
  ∃ mo events outs,
    is_object h' out mo ∧
    mo !! "_parsed" = Some (VBool true) ∧
    mo !! "id" = Some (field ms "id") ∧
    mo !! "latestLedger" = Some (field ms "latestLedger") ∧
    mo !! "events" = Some events ∧
    is_array h' events outs ∧
    (nullish (field ms "events") = true → outs = []) ∧
    (∀ xs, is_array h (field ms "events") xs →
           Forall2 (decodes DiagnosticEvent) xs outs).
Proof.
  intros Ho Hraw E.
  destruct (parseRawSimulation_base_events _ _ _ _ _ Ho Hraw E)
    as (events & outs & h1 & P1 & Ha & Hn & Hd & Hrest). cbn zeta in Hrest.
  destruct (base_props_marker ms events) as (B1 & B2 & B3 & B4).
  destruct (is_string (field ms "error")).
  - destruct Hrest as [-> ->].
    eexists _, events, outs. split; [apply is_object_new|].
    rewrite !lookup_insert_ne by done.
    split; [done|]. split; [done|]. split; [done|]. split; [done|].
    split; [|done]. eapply is_array_mono; [|exact Ha].
    rewrite <- (assoc_L (++)). by eexists.
  - assert (h1 ++ [OPlain (base_props ms events)] `prefix_of` h') as P'.
    { eapply run_prefix; [|exact Hrest]. intros. apply keeps_parseSuccessful. }
    apply (parseSuccessful_inr h _ _ ms _ (base_props ms events)) in Hrest
      as (builder & part_r & part_c & mo & _ & (Hr & _) & (Hc & _) & Hmo &
          Hshape);
      [|by etrans; [exact P1|by eexists]|done|apply is_object_new].
    exists mo, events, outs. split; [done|].
    assert (∀ k, k ≠ "result" → k ≠ "stateChanges" → k ≠ "cost" →
                 k ≠ "minResourceFee" → k ≠ "transactionData" →
                 k ≠ "restorePreamble" →
                 mo !! k = base_props ms events !! k) as Hk.
    { intros k K1 K2 K3 K4 K5 K6.
      destruct Hshape as [[-> _]|(hint & -> & _)].
      - rewrite success_props_other by done. by rewrite !lookup_insert_ne.
      - rewrite lookup_insert_ne by done.
        rewrite success_props_other by done. by rewrite !lookup_insert_ne. }
    rewrite !Hk by done.
    split; [done|]. split; [done|]. split; [done|]. split; [done|].
    split; [|done]. eapply is_array_mono; [|exact Ha].
    etrans; [|exact P']. by eexists.
Qed.

(** X10.  An error response never has its success fields looked at: on a raw
    object whose [error] is a string, [parseRawSimulation] returns as soon as
    the raw [events] is undefined, null or an array of payloads that all
    decode, and the output is exactly the base properties and that [error],
    whatever [transactionData], [results] or [restorePreamble] hold. *)
Theorem parseRawSimulation_error_returns h sim ms e :
  is_object h sim ms →
  isSimulationRaw h sim = true →
  field ms "error" = VStr e →
  (nullish (field ms "events") = true ∨
   ∃ xs, is_array h (field ms "events") xs ∧ all_decode DiagnosticEvent xs) →
  ∃ out h' events,
    parseRawSimulation sim h = (inr out, h') ∧
    is_object h' out (<["error" := VStr e]> (base_props ms events)).
Proof.
  intros Ho Hraw He Hev. unfold parseRawSimulation.
  rewrite (bind_ok _ _ _ true h) by (unfold looks_raw; by rewrite Hraw).
  cbn [negb].
  do 3 rewrite (bind_ok _ _ _ _ _ (get_object _ _ _ _ Ho)).
  destruct Hev as [Hn|(xs & Ha & Hxs)].
  - rewrite Hn. rewrite (bind_ok _ _ _ VUndef h) by done.
    rewrite (bind_ok _ _ _ (VRef (length h)) (h ++ [OArray []])) by done.
    destruct (error_shape_tail h (h ++ [OArray []]) sim ms e
                (VRef (length h)) Ho) as (out & h' & E & Hout);
      [by eexists|done|].
    by exists out, h', (VRef (length h)).
  - assert (nullish (field ms "events") = false) as ->.
    { destruct Ha as (l & -> & _). done. }
    destruct (mapM_decode_returns _ _ h Hxs) as (ys & Ey).
    rewrite (bind_ok _ _ _ (VRef (length h)) (h ++ [OArray ys])); last first.
    { rewrite (array_map_array _ _ _ _ Ha), !bind_unfold, Ey. reflexivity. }
    rewrite (bind_ok _ _ _ (VRef (length h)) (h ++ [OArray ys])) by done.
    destruct (error_shape_tail h (h ++ [OArray ys]) sim ms e
                (VRef (length h)) Ho) as (out & h' & E & Hout);
      [by eexists|done|].
    by exists out, h', (VRef (length h)).
Qed.

End SimulationShapes.
Section SimulationSuccess.
Context {ext : Type} `{!Codec ext} `{!ShapeGuard ext}.

Implicit Types (h : heap ext) (v x : value ext) (l : loc) (k : string).
Implicit Types (m : gmap string (value ext)) (xs ys : list (value ext)).

(** X11.  A call of [parseRawSimulation] on a raw object without an error
    string that returns gives an object whose [transactionData] is the
    [SorobanDataBuilder] made of the raw one, and whose [minResourceFee] and
    [cost] are the raw values themselves (a raw [cost] object is shared, not
    copied).  When the raw [restorePreamble] is an object whose
    [transactionData] is not the empty string, the output [restorePreamble] is
    a new object with exactly the copied [minResourceFee] and the builder made
    of the preamble's [transactionData]. *)
Theorem parseRawSimulation_success_fields h sim ms out h' :
  is_object h sim ms →
  isSimulationRaw h sim = true →
  is_string (field ms "error") = false →
  parseRawSimulation sim h = (inr out, h') →
  ∃ mo builder,
    is_object h' out mo ∧
    newSorobanDataBuilder (field ms "transactionData") = Some builder ∧
    mo !! "transactionData" = Some (VExt builder) ∧
    mo !! "minResourceFee" = Some (field ms "minResourceFee") ∧
    mo !! "cost" = Some (field ms "cost") ∧
    (∀ mrp, is_object h (field ms "restorePreamble") mrp →
            field mrp "transactionData" ≠ VStr "" →
            ∃ hint rb,
              mo !! "restorePreamble" = Some hint ∧
              newSorobanDataBuilder (field mrp "transactionData") = Some rb ∧
              is_object h' hint
                (<["minResourceFee" := field mrp "minResourceFee"]>
                   {[ "transactionData" := VExt rb ]})).
Proof.
  intros Ho Hraw Herr E.
  destruct (parseRawSimulation_raw _ _ _ _ _ Ho Hraw E)
    as (events & mo & Hmo & [[Herr' _]|(_ & builder & part_r & part_c &
          Hb & (Hr & _) & (Hc & _) & Hshape)]); [congruence|].
  cbn zeta in Hshape. exists mo, builder. split; [done|]. split; [done|].
  set (sp := success_props ms (base_props ms events) builder part_r part_c)
    in *.
  assert (sp !! "transactionData" = Some (VExt builder)) as S1.
  { unfold sp. rewrite success_props_other by done.
    by rewrite 2!lookup_insert_ne, lookup_insert_eq by done. }
  assert (sp !! "minResourceFee" = Some (field ms "minResourceFee")) as S2.
  { unfold sp. rewrite success_props_other by done.
    by rewrite lookup_insert_ne, lookup_insert_eq. }
  assert (sp !! "cost" = Some (field ms "cost")) as S3.
  { unfold sp. rewrite success_props_other by done.
    by rewrite lookup_insert_eq. }
  destruct Hshape as [[-> Hplain]|(hint & -> & Htr & Hhint)].
  - split; [done|]. split; [done|]. split; [done|].
    intros mrp Hrp Hne. destruct Hplain as [Hf|Hall].
    + destruct Hrp as (l & Hl & _). rewrite Hl in Hf. discriminate.
    + by destruct Hne; apply Hall.
  - rewrite !lookup_insert_ne by done.
    split; [done|]. split; [done|]. split; [done|].
    intros mrp Hrp Hne. destruct (Hhint mrp Hrp) as (_ & rb & Hrb & Hh).
    exists hint, rb. by rewrite lookup_insert_eq.
Qed.

(** When [parseSuccessful] returns, every row of [results] was parsed. *)
Lemma parseSuccessful_all_rows h h0 sim ms partial mb out h' rows :
  h `prefix_of` h0 →
  is_object h sim ms →
  is_object h0 partial mb →
  is_array h (field ms "results") rows →
  parseSuccessful sim partial h0 = (inr out, h') →
  Forall (λ row, ∃ h1 r h2, h `prefix_of` h1 ∧
                            parseResultRow row h1 = (inr r, h2)) rows.
Proof.
  intros P0 Ho Hb Hrows E. unfold parseSuccessful in E.
  pose proof (is_object_mono _ _ _ _ P0 Ho) as Ho0.
  rewrite (bind_ok _ _ _ _ _ (own_properties_object _ _ _ Hb)) in E.
  rewrite (bind_ok _ _ _ _ _ (get_object _ _ _ _ Ho0)) in E.
  apply bind_inr in E as (builder & h1 & E1 & E).
  apply lift_codec_inr in E1 as [_ ->].
  rewrite (bind_ok _ _ _ _ _ (get_object _ _ _ _ Ho0)) in E.
  rewrite (bind_ok _ _ _ _ _ (get_object _ _ _ _ Ho0)) in E.
  apply bind_inr in E as (hasResults & h1 & E1 & E).
  apply (length_or_false_inr _ _ _ _ _ _ Ho0) in E1 as (-> & _ & Ra).
  apply bind_inr in E as (part_r & h1 & E1 & _).
  pose proof (is_array_mono _ _ _ _ P0 Hrows) as Hrows0.
  destruct (truthy hasResults) eqn:T.
  - rewrite (bind_ok _ _ _ _ _ (get_object _ _ _ _ Ho0)) in E1.
    apply bind_inr in E1 as (parsed & h2 & E1 & _).
    apply array_map_inr in E1 as (xs & ys & h3 & Ha & E1 & _ & _).
    rewrite (is_array_inj _ _ _ _ Ha Hrows0) in E1.
    apply mapM_inr in E1 as [_ F]; [|intros; apply keeps_parseResultRow].
    apply Forall_lookup. intros j row Hj.
    destruct (Forall2_lookup_l _ _ _ _ _ F Hj)
      as (r & _ & h4 & h5 & P4 & _ & E4).
    exists h4, r, h5. split; [by etrans|done].
  - destruct rows as [|row rows]; [constructor|].
    by pose proof (proj2 (Ra _ Hrows0) ltac:(done)).
Qed.

(** X12.  Only the first row of [results] reaches the output, but every row
    is parsed: on a raw object without an error string, a row, at any place
    in the list, whose [xdr] is truthy and does not decode makes
    [parseRawSimulation] fail. *)
Theorem parseRawSimulation_any_row_fails h sim ms rows i row mrow :
  is_object h sim ms →
  isSimulationRaw h sim = true →
  is_string (field ms "error") = false →
  is_array h (field ms "results") rows →
  rows !! i = Some row →
  is_object h row mrow →
  truthy (field mrow "xdr") = true →
  fromXDR ScVal (field mrow "xdr") = None →
  ∃ err h', parseRawSimulation sim h = (inl err, h').
Proof.
  intros Ho Hraw Herr Hrows Hi Hrow Ht Hbad.
  destruct (parseRawSimulation sim h) as [[err|out] h'] eqn:E; [eauto|].
  exfalso.
  destruct (parseRawSimulation_base_events _ _ _ _ _ Ho Hraw E)
    as (events & outs & h1 & P1 & _ & _ & _ & Hrest). cbn zeta in Hrest.
  rewrite Herr in Hrest.
  assert (h `prefix_of` h1 ++ [OPlain (base_props ms events)]) as P2.
  { etrans; [exact P1|]. by eexists. }
  pose proof (parseSuccessful_all_rows h _ _ _ _ _ _ _ _ P2 Ho
                (is_object_new _ _) Hrows Hrest) as Hall.
  rewrite Forall_lookup in Hall.
  destruct (Hall i row Hi) as (h2 & r & h3 & P & Er).
  destruct (parseResultRow_inr _ _ _ _ _ (is_object_mono _ _ _ _ P Hrow) Er)
    as (mr & auths & _ & _ & _ & _ & Hret).
  rewrite Ht in Hret. destruct Hret as (e & He & _). congruence.
Qed.
End SimulationSuccess.
(** ** The further properties at work on sample responses *)

Lemma parseRawSendTransaction_argument_witness :
  Sample.send_error_heap !! 1%nat = Some (OPlain Sample.send_error_props) ∧
  (parseRawSendTransaction (VRef 1%nat) Sample.send_error_heap).2 !! 1%nat =
    Some (OPlain (send_rest Sample.send_error_props)).
Proof.
  split; [reflexivity|].
  apply (parseRawSendTransaction_argument Sample.send_error_heap 1%nat
           Sample.send_error_props eq_refl).
Defined.

Lemma parseRawLedgerEntries_entries_witness :
  ∃ mo outs,
    is_object (parseRawLedgerEntries (VRef 3%nat) Sample.ledger_heap_good).2
      (VRef 7%nat) mo ∧
    mo !! "latestLedger" = Some (VNum 9) ∧
    is_array (parseRawLedgerEntries (VRef 3%nat) Sample.ledger_heap_good).2
      (field mo "entries") outs ∧
    Forall2 (entry_parsed Sample.ledger_heap_good
               (parseRawLedgerEntries (VRef 3%nat) Sample.ledger_heap_good).2)
      [VRef 0%nat; VRef 1%nat] outs.
Proof.
  apply (parseRawLedgerEntries_entries Sample.ledger_heap_good (VRef 3%nat)
           Sample.ledger_props [VRef 0%nat; VRef 1%nat] (VRef 7%nat)
           (parseRawLedgerEntries (VRef 3%nat) Sample.ledger_heap_good).2).
  - exists 3%nat. split; reflexivity.
  - exists 2%nat. split; reflexivity.
  - vm_compute. reflexivity.
Defined.

Lemma parseRawLedgerEntries_returns_witness :
  ∃ out h',
    parseRawLedgerEntries (VRef 3%nat) Sample.ledger_heap_good = (inr out, h').
Proof.
  apply (parseRawLedgerEntries_returns Sample.ledger_heap_good (VRef 3%nat)
           Sample.ledger_props [VRef 0%nat; VRef 1%nat]).
  - exists 3%nat. split; reflexivity.
  - exists 2%nat. split; reflexivity.
  - constructor; [|constructor; [|constructor]].
    + exists Sample.entry_good. split; [exists 0%nat; split; reflexivity|].
      split; [reflexivity|]. split; [reflexivity|].
      split; eexists; reflexivity.
    + exists Sample.entry_live. split; [exists 1%nat; split; reflexivity|].
      split; [reflexivity|]. split; [reflexivity|].
      split; eexists; reflexivity.
Defined.

Lemma parseTransactionInfo_fields_witness :
  ∃ mi d,
    is_object
      (parseTransactionInfo (VRef 1%nat) Sample.transaction_status_heap).2
      (VRef 2%nat) mi ∧
    mi !! "ledger" = Some (VNum 1) ∧
    mi !! "status" = None ∧
    mi !! "diagnosticEventsXdr" = Some d.
Proof.
  destruct (parseTransactionInfo_fields Sample.transaction_status_heap
              (VRef 1%nat) Sample.transaction_status_props (VRef 2%nat)
              (parseTransactionInfo (VRef 1%nat)
                 Sample.transaction_status_heap).2)
    as (mi & Hmi & Hl & _ & _ & _ & _ & _ & _ & Hs & Hd & _).
  - exists 1%nat. split; reflexivity.
  - vm_compute. reflexivity.
  - destruct (proj2 Hd eq_refl) as [d Hd'].
    exists mi, d. split; [exact Hmi|]. split; [exact Hl|].
    split; [exact Hs|exact Hd'].
Defined.

Lemma parseTransactionInfo_meta_first_witness :
  parseTransactionInfo (VRef 0%nat) Sample.transaction_bad_meta_heap =
  (inl (CodecError (Some TransactionMeta) (VStr "!")),
   Sample.transaction_bad_meta_heap).
Proof.
  apply (parseTransactionInfo_meta_first Sample.transaction_bad_meta_heap
           (VRef 0%nat) Sample.transaction_bad_meta_props).
  - exists 0%nat. split; reflexivity.
  - reflexivity.
Defined.

Lemma parseRawTransactions_adds_status_witness :
  ∃ mi,
    is_object
      (parseTransactionInfo (VRef 1%nat) Sample.transaction_status_heap).2
      (VRef 2%nat) mi ∧
    parseRawTransactions (VRef 1%nat) Sample.transaction_status_heap =
    (inr (VRef 4%nat),
     (parseTransactionInfo (VRef 1%nat) Sample.transaction_status_heap).2
       ++ [OPlain (<["status" := VStr "SUCCESS"]> mi)]).
Proof.
  destruct (proj2 (parseRawTransactions_adds_status
                     Sample.transaction_status_heap (VRef 1%nat)
                     Sample.transaction_status_props
                     (ex_intro _ 1%nat (conj eq_refl eq_refl)))
              (VRef 2%nat)
              (parseTransactionInfo (VRef 1%nat)
                 Sample.transaction_status_heap).2)
    as (mi & Hmi & Hrun).
  - vm_compute. reflexivity.
  - exists mi. split; [exact Hmi|]. rewrite Hrun. reflexivity.
Defined.

Lemma parseRawSendTransaction_null_events_witness :
  parseRawSendTransaction (VRef 0%nat) Sample.send_null_events_heap =
  (inl NativeTypeError,
   [OPlain (send_rest Sample.send_null_events_props)]).
Proof.
  apply (parseRawSendTransaction_null_events Sample.send_null_events_heap
           0%nat Sample.send_null_events_props); reflexivity.
Defined.

Lemma parseRawSendTransaction_error_returns_witness :
  ∃ out h',
    parseRawSendTransaction (VRef 1%nat) Sample.send_events_heap
    = (inr out, h').
Proof.
  apply (parseRawSendTransaction_error_returns Sample.send_events_heap
           1%nat Sample.send_events_props).
  - reflexivity.
  - reflexivity.
  - eexists. reflexivity.
  - right. exists [VStr "EVT"]. split; [exists 0%nat; split; reflexivity|].
    constructor; [eexists; reflexivity|constructor].
Defined.

Lemma parseRawEvents_absent_contractId_witness :
  ∃ h', parseRawEvents (VRef 3%nat) Sample.events_no_contract_heap
        = (inl (CodecError None VUndef), h').
Proof.
  destruct (parseRawEvents_absent_contractId
              Sample.events_no_contract_heap (VRef 3%nat)
              Sample.events_no_contract_props [VRef 1%nat] 0%nat
              (VRef 1%nat) Sample.event_no_contract) as [_ Hfirst].
  - exists 3%nat. split; reflexivity.
  - exists 2%nat. split; reflexivity.
  - reflexivity.
  - exists 1%nat. split; reflexivity.
  - reflexivity.
  - reflexivity.
  - apply Hfirst. reflexivity.
Defined.

Lemma parseRawSimulation_base_witness :
  ∃ mo events outs,
    is_object (parseRawSimulation (VRef 7%nat) Sample.simulation_heap).2
      (VRef 15%nat) mo ∧
    mo !! "_parsed" = Some (VBool true) ∧
    mo !! "id" = Some (VStr "1") ∧
    mo !! "events" = Some events ∧
    is_array (parseRawSimulation (VRef 7%nat) Sample.simulation_heap).2
      events outs ∧
    outs = [].
Proof.
  destruct (parseRawSimulation_base Sample.simulation_heap (VRef 7%nat)
              Sample.simulation_props (VRef 15%nat)
              (parseRawSimulation (VRef 7%nat) Sample.simulation_heap).2)
    as (mo & events & outs & Hmo & Hp & Hid & _ & Hev & Ha & Hn & _).
  - exists 7%nat. split; reflexivity.
  - reflexivity.
  - vm_compute. reflexivity.
  - exists mo, events, outs. split; [exact Hmo|]. split; [exact Hp|].
    split; [exact Hid|]. split; [exact Hev|]. split; [exact Ha|].
    apply Hn. reflexivity.
Defined.

Lemma parseRawSimulation_error_returns_witness :
  ∃ out h' events,
    parseRawSimulation (VRef 1%nat) Sample.simulation_error_heap
    = (inr out, h') ∧
    is_object h' out
      (<["error" := VStr "boom"]>
         (base_props Sample.simulation_error_props events)).
Proof.
  apply (parseRawSimulation_error_returns Sample.simulation_error_heap
           (VRef 1%nat) Sample.simulation_error_props "boom").
  - exists 1%nat. split; reflexivity.
  - reflexivity.
  - reflexivity.
  - right. exists [VStr "EVT"]. split; [exists 0%nat; split; reflexivity|].
    constructor; [eexists; reflexivity|constructor].
Defined.

Lemma parseRawSimulation_success_fields_witness :
  ∃ mo hint,
    is_object
      (parseRawSimulation (VRef 2%nat) Sample.simulation_restore_heap).2
      (VRef 7%nat) mo ∧
    mo !! "transactionData" = Some (VExt (Sample.DataBuilder "DATA")) ∧
    mo !! "cost" = Some (VRef 0%nat) ∧
    mo !! "restorePreamble" = Some hint ∧
    is_object
      (parseRawSimulation (VRef 2%nat) Sample.simulation_restore_heap).2
      hint
      (<["minResourceFee" := VStr "5"]>
         {[ "transactionData" := VExt (Sample.DataBuilder "RDATA") ]}).
Proof.
  destruct (parseRawSimulation_success_fields Sample.simulation_restore_heap
              (VRef 2%nat) Sample.simulation_restore_props (VRef 7%nat)
              (parseRawSimulation (VRef 2%nat)
                 Sample.simulation_restore_heap).2)
    as (mo & builder & Hmo & Hb & Htd & _ & Hc & Hrp).
  - exists 2%nat. split; reflexivity.
  - reflexivity.
  - reflexivity.
  - vm_compute. reflexivity.
  - destruct (Hrp Sample.restore_preamble) as (hint & rb & Hh & Hrb & Hho).
    + exists 1%nat. split; reflexivity.
    + discriminate.
    + exists mo, hint. split; [exact Hmo|].
      assert (builder = Sample.DataBuilder "DATA") as ->
        by (vm_compute in Hb; congruence).
      assert (rb = Sample.DataBuilder "RDATA") as ->
        by (vm_compute in Hrb; congruence).
      split; [exact Htd|]. split; [exact Hc|]. split; [exact Hh|exact Hho].
Defined.

Lemma parseRawSimulation_any_row_fails_witness :
  ∃ err h',
    parseRawSimulation (VRef 5%nat) Sample.simulation_two_rows_heap
    = (inl err, h').
Proof.
  apply (parseRawSimulation_any_row_fails Sample.simulation_two_rows_heap
           (VRef 5%nat) Sample.simulation_two_rows_props
           [VRef 1%nat; VRef 2%nat] 1%nat (VRef 2%nat)
           Sample.result_row_bad).
  - exists 5%nat. split; reflexivity.
  - reflexivity.
  - reflexivity.
  - exists 3%nat. split; reflexivity.
  - reflexivity.
  - exists 2%nat. split; reflexivity.
  - reflexivity.
  - reflexivity.
Defined.
